(** * Trinity wallet: the Realm storage layer

    A shallow embedding of the storage module (the classes [Account], [Node]
    and [Wallet] with their static methods, and the lifecycle functions
    [purge], [initialise] and [reinitialise]) together with the part of the
    Realm object store those methods rely on: primary-key tables, write
    transactions that are cancelled when their callback throws, and
    [create] with and without the update flag. *)

From stdpp Require Import base option strings list gmap.
From Stdlib Require Import ZArith Lia.

Open Scope Z_scope.
Open Scope string_scope.
Open Scope list_scope.

(** ** Schemas

    The storage module imports its schemas from a sibling module that is not
    among the sources.  What the methods below show of them is kept: the
    property names they read and write, the primary keys they look objects up
    by, and the payload types of their documentation comments. *)

(** JavaScript numbers are only ever stored and handed back by the methods
    below; no arithmetic is done on them. *)
Definition number : Type := Z.

(** Modelled from the spec: the settings sub-schema (its declaration is
    missing), an embedded record of locale, currency, theme, security toggles
    and feature flags.  The keys are the properties the setters of [Wallet]
    assign; their types follow the setters' documented payload types. *)
Module WalletSettingsSchema.

Inductive key : Set :=
  | remotePoW | autoPromotion | autoNodeSwitching | lockScreenTimeout
  | locale | mode | node | language
  | currency | conversionRate | availableCurrencies
  | themeName | hasRandomizedNode | is2FAEnabled | isFingerprintEnabled
  | buildNumber | version | acceptedTerms | acceptedPrivacy
  | hideEmptyTransactions | completedForcedPasswordUpdate
  | completedByteTritSweep | isTrayEnabled.

Definition type (k : key) : Type :=
  match k with
  | remotePoW | autoPromotion | autoNodeSwitching => bool
  | lockScreenTimeout => number
  | locale | mode | node | language | currency => string
  | conversionRate => number
  | availableCurrencies => list string
  | themeName => string
  | hasRandomizedNode | is2FAEnabled | isFingerprintEnabled => bool
  | buildNumber => number
  | version => string
  | acceptedTerms | acceptedPrivacy | hideEmptyTransactions
  | completedForcedPasswordUpdate | completedByteTritSweep
  | isTrayEnabled => bool
  end.

#[global] Instance key_eq_dec : EqDecision key.
Proof. solve_decision. Defined.

(** A settings object: one value per property, and the embedded
    notifications object, a map from notification type to a toggle. *)
Record object : Type := {
  props : forall k : key, type k;
  notifications : gmap string bool
}.

(** [settings.k = v] *)
Definition set (k : key) (v : type k) (s : object) : object :=
  {| props := fun k' =>
       match decide (k = k') with
       | left e => eq_rect k type v k' e
       | right _ => props s k'
       end;
     notifications := notifications s |}.

(** [settings.notifications[type] = enabled] *)
Definition set_notification (type : string) (enabled : bool) (s : object) : object :=
  {| props := props s;
     notifications := <[type := enabled]> (notifications s) |}.

(** The plain object handed to [realm.create]: any property may be left out. *)
Record data : Type := {
  data_props : forall k : key, option (type k);
  data_notifications : gmap string bool
}.

End WalletSettingsSchema.

(** What the model takes from the missing schema declarations as a parameter:
    the element types of an account's two lists, and the defaults a freshly
    created object takes for the properties its creator leaves out (every
    property that a creator below leaves out is taken to have one). *)
Class Schemas : Type := {
  Address : Type;
  Transaction : Type;
  settingsDefault : forall k, WalletSettingsSchema.type k;
  notificationsDefault : gmap string bool;
  onboardingCompleteDefault : bool;
  customDefault : bool;
  powDefault : bool
}.

(** Modelled from the spec: the Account schema (its declaration is missing).
    Primary key [name]; a list of addresses and a list of transactions. *)
Module AccountSchema.
Section WithSchemas.
Context `{Schemas}.

Record object : Type := {
  name : string;
  addressData : list Address;
  transactions : list Transaction
}.

(** A plain JavaScript object with some of an account's properties, and
    possibly the property [accountName], which the schema does not have. *)
Record data : Type := {
  data_name : option string;
  data_addressData : option (list Address);
  data_transactions : option (list Transaction);
  data_accountName : option string
}.

(** [{}] *)
Definition empty : data :=
  {| data_name := None; data_addressData := None;
     data_transactions := None; data_accountName := None |}.

(** The own enumerable properties of an account object, or of [undefined]. *)
Definition own_props (o : option object) : data :=
  match o with
  | Some a =>
      {| data_name := Some (name a);
         data_addressData := Some (addressData a);
         data_transactions := Some (transactions a);
         data_accountName := None |}
  | None => empty
  end.

Definition assign1 (target source : data) : data :=
  {| data_name := from_option Some (data_name target) (data_name source);
     data_addressData :=
       from_option Some (data_addressData target) (data_addressData source);
     data_transactions :=
       from_option Some (data_transactions target) (data_transactions source);
     data_accountName :=
       from_option Some (data_accountName target) (data_accountName source) |}.

(** lodash [assign(target, ...sources)]: later sources win. *)
Definition assign (target : data) (sources : list data) : data :=
  foldl assign1 target sources.

(** A fresh object from a plain one; a list left out starts empty. *)
Definition instantiate (k : string) (d : data) : object :=
  {| name := k;
     addressData := default [] (data_addressData d);
     transactions := default [] (data_transactions d) |}.

(** Update mode: only the properties given are assigned. *)
Definition assign_props (d : data) (o : object) : object :=
  {| name := name o;
     addressData := default (addressData o) (data_addressData d);
     transactions := default (transactions o) (data_transactions d) |}.

End WithSchemas.
End AccountSchema.

(** Modelled from the spec: the Node schema (its declaration is missing).
    Primary key [url]; the flags [custom] and [pow]. *)
Module NodeSchema.
Section WithSchemas.
Context `{Schemas}.

Record object : Type := { url : string; custom : bool; pow : bool }.

(** A plain node object: the flags may be left out. *)
Record data : Type := {
  data_url : string;
  data_custom : option bool;
  data_pow : option bool
}.

Definition instantiate (d : data) : object :=
  {| url := data_url d;
     custom := default customDefault (data_custom d);
     pow := default powDefault (data_pow d) |}.

Definition assign_props (d : data) (o : object) : object :=
  {| url := url o;
     custom := default (custom o) (data_custom d);
     pow := default (pow o) (data_pow d) |}.

End WithSchemas.
End NodeSchema.

(** Modelled from the spec: the Wallet schema (its declaration is missing).
    Primary key [version]; the embedded settings, the onboarding flag and the
    error log, an ordered sequence of strings. *)
Module WalletSchema.
Section WithSchemas.
Context `{Schemas}.

Record object : Type := {
  version : Z;
  settings : WalletSettingsSchema.object;
  onboardingComplete : bool;
  errorLog : list string
}.

(** The plain object [createIfNotExists] builds: a version and settings. *)
Record data : Type := {
  data_version : Z;
  data_settings : WalletSettingsSchema.data
}.

Definition instantiate_settings
    (d : WalletSettingsSchema.data) : WalletSettingsSchema.object :=
  {| WalletSettingsSchema.props := fun k =>
       default (settingsDefault k) (WalletSettingsSchema.data_props d k);
     WalletSettingsSchema.notifications :=
       WalletSettingsSchema.data_notifications d ∪ notificationsDefault |}.

Definition instantiate (d : data) : object :=
  {| version := data_version d;
     settings := instantiate_settings (data_settings d);
     onboardingComplete := onboardingCompleteDefault;
     errorLog := [] |}.

Definition set_settings (s : WalletSettingsSchema.object) (w : object) : object :=
  {| version := version w; settings := s;
     onboardingComplete := onboardingComplete w; errorLog := errorLog w |}.

Definition set_onboardingComplete (b : bool) (w : object) : object :=
  {| version := version w; settings := settings w;
     onboardingComplete := b; errorLog := errorLog w |}.

Definition set_errorLog (l : list string) (w : object) : object :=
  {| version := version w; settings := settings w;
     onboardingComplete := onboardingComplete w; errorLog := l |}.

End WithSchemas.
End WalletSchema.

(** ** The object store *)

(** Primary-key tables: rows in insertion order, looked up by key. *)
Section Table.
Context {E K : Type} `{EqDecision K} (pk : E -> K).

Definition lookup_pk (k : K) (t : list E) : option E :=
  List.find (fun e => bool_decide (pk e = k)) t.

(** Assign through the live object with key [k]. *)
Fixpoint modify_pk (k : K) (f : E -> E) (t : list E) : list E :=
  match t with
  | [] => []
  | e :: t' => if decide (pk e = k) then f e :: t' else e :: modify_pk k f t'
  end.

(** Remove the object with key [k]. *)
Fixpoint remove_pk (k : K) (t : list E) : list E :=
  match t with
  | [] => []
  | e :: t' => if decide (pk e = k) then t' else e :: remove_pk k t'
  end.

End Table.
#[global] Arguments lookup_pk : simpl never.

Section WithSchemas.
Context `{Schemas}.

Record Store : Type := {
  accounts : list AccountSchema.object;
  nodes : list NodeSchema.object;
  wallets : list WalletSchema.object
}.

Definition set_accounts (t : list AccountSchema.object) (s : Store) : Store :=
  {| accounts := t; nodes := nodes s; wallets := wallets s |}.
Definition set_nodes (t : list NodeSchema.object) (s : Store) : Store :=
  {| accounts := accounts s; nodes := t; wallets := wallets s |}.
Definition set_wallets (t : list WalletSchema.object) (s : Store) : Store :=
  {| accounts := accounts s; nodes := nodes s; wallets := t |}.

(** The open Realm: the objects as reads see them, and, while a write
    transaction is in progress, the objects as they were when it began. *)
Record Realm : Type := {
  objects : Store;
  transaction : option Store
}.

Definition with_objects (s : Store) (r : Realm) : Realm :=
  {| objects := s; transaction := transaction r |}.

Inductive Error : Set :=
  | AlreadyInTransaction
  | NotInTransaction
  | DuplicatePrimaryKey (type : string)
  | MissingPropertyValue (prop : string)
  | InvalidDeleteArgument
  | TypeError (prop : string).

Inductive Result (A : Type) : Type :=
  | Ok (a : A)
  | Throw (e : Error).
#[global] Arguments Ok {A} a.
#[global] Arguments Throw {A} e.

(** A computation reads and changes the Realm and returns or throws; what it
    did before throwing stays done. *)
Definition M (A : Type) : Type := Realm -> Result A * Realm.

Definition ret {A} (a : A) : M A := fun r => (Ok a, r).
Definition throw {A} (e : Error) : M A := fun r => (Throw e, r).
Definition bind {A B} (c : M A) (k : A -> M B) : M B := fun r =>
  match c r with
  | (Ok a, r') => k a r'
  | (Throw e, r') => (Throw e, r')
  end.
Definition try_catch {A} (c : M A) (handler : Error -> M A) : M A := fun r =>
  match c r with
  | (Ok a, r') => (Ok a, r')
  | (Throw e, r') => handler e r'
  end.

End WithSchemas.

Declare Scope realm_scope.
Delimit Scope realm_scope with realm.
Notation "x <- c ;; k" := (bind c (fun x => k))
  (at level 100, c at next level, right associativity) : realm_scope.
Notation "c ;; k" := (bind c (fun _ => k))
  (at level 100, right associativity) : realm_scope.
Open Scope realm_scope.

Section WithSchemas.
Context `{Schemas}.

(** lodash [each] over an array, with an iteratee that returns nothing. *)
Fixpoint each {A} (l : list A) (iteratee : A -> M unit) : M unit :=
  match l with
  | [] => ret tt
  | x :: l' => iteratee x ;; each l' iteratee
  end.

End WithSchemas.

(** The methods of the Realm instance the storage module uses. *)
Module realm.
Section WithSchemas.
Context `{Schemas}.

Definition beginTransaction : M unit := fun r =>
  match transaction r with
  | Some _ => (Throw AlreadyInTransaction, r)
  | None => (Ok tt, {| objects := objects r; transaction := Some (objects r) |})
  end.

Definition cancelTransaction : M unit := fun r =>
  match transaction r with
  | Some before => (Ok tt, {| objects := before; transaction := None |})
  | None => (Throw NotInTransaction, r)
  end.

Definition commitTransaction : M unit := fun r =>
  match transaction r with
  | Some _ => (Ok tt, {| objects := objects r; transaction := None |})
  | None => (Throw NotInTransaction, r)
  end.

(** [realm.write(callback)]: begin, run the callback, commit; when the
    callback throws, cancel the transaction and throw the same error on. *)
Definition write {A} (callback : M A) : M unit :=
  beginTransaction ;;
  try_catch (callback ;; ret tt)
            (fun e => cancelTransaction ;; throw e) ;;
  commitTransaction.

(** Objects are changed in a write transaction only. *)
Definition in_write {A} (c : M A) : M A := fun r =>
  match transaction r with
  | Some _ => c r
  | None => (Throw NotInTransaction, r)
  end.

Definition get {A} (f : Store -> A) : M A := fun r => (Ok (f (objects r)), r).
Definition put (f : Store -> Store) : M unit := fun r =>
  (Ok tt, with_objects (f (objects r)) r).

(** [realm.objectForPrimaryKey(type, key)]: the object, or [undefined]. *)
Definition objectForPrimaryKey_Account (id : string) : M (option AccountSchema.object) :=
  get (fun s => lookup_pk AccountSchema.name id (accounts s)).
Definition objectForPrimaryKey_Node (id : string) : M (option NodeSchema.object) :=
  get (fun s => lookup_pk NodeSchema.url id (nodes s)).
Definition objectForPrimaryKey_Wallet (id : Z) : M (option WalletSchema.object) :=
  get (fun s => lookup_pk WalletSchema.version id (wallets s)).

(** [realm.objects(type)] *)
Definition objects_Account : M (list AccountSchema.object) := get accounts.
Definition objects_Node : M (list NodeSchema.object) := get nodes.
Definition objects_Wallet : M (list WalletSchema.object) := get wallets.

(** [realm.create('Account', data, update)]: the primary key must be given;
    an object with that key is assigned to in update mode and is an error
    otherwise; properties outside the schema are not looked at. *)
Definition create_Account (d : AccountSchema.data) (update : bool) : M unit :=
  in_write (
    match AccountSchema.data_name d with
    | None => throw (MissingPropertyValue "Account.name")
    | Some k =>
        t <- get accounts ;;
        match lookup_pk AccountSchema.name k t with
        | Some _ =>
            if update
            then put (set_accounts
                        (modify_pk AccountSchema.name k (AccountSchema.assign_props d) t))
            else throw (DuplicatePrimaryKey "Account")
        | None => put (set_accounts (t ++ [AccountSchema.instantiate k d]))
        end
    end).

(** [realm.create('Node', data, update)] *)
Definition create_Node (d : NodeSchema.data) (update : bool) : M unit :=
  in_write (
    t <- get nodes ;;
    match lookup_pk NodeSchema.url (NodeSchema.data_url d) t with
    | Some _ =>
        if update
        then put (set_nodes
                    (modify_pk NodeSchema.url (NodeSchema.data_url d)
                               (NodeSchema.assign_props d) t))
        else throw (DuplicatePrimaryKey "Node")
    | None => put (set_nodes (t ++ [NodeSchema.instantiate d]))
    end).

(** [realm.create('Wallet', data)] *)
Definition create_Wallet (d : WalletSchema.data) : M unit :=
  in_write (
    t <- get wallets ;;
    match lookup_pk WalletSchema.version (WalletSchema.data_version d) t with
    | Some _ => throw (DuplicatePrimaryKey "Wallet")
    | None => put (set_wallets (t ++ [WalletSchema.instantiate d]))
    end).

(** [realm.delete(object)]: the argument must be an object of the Realm. *)
Definition delete_Account (o : option AccountSchema.object) : M unit :=
  in_write (
    match o with
    | None => throw InvalidDeleteArgument
    | Some a =>
        put (fun s => set_accounts
               (remove_pk AccountSchema.name (AccountSchema.name a) (accounts s)) s)
    end).

Definition delete_Node (o : option NodeSchema.object) : M unit :=
  in_write (
    match o with
    | None => throw InvalidDeleteArgument
    | Some n =>
        put (fun s => set_nodes
               (remove_pk NodeSchema.url (NodeSchema.url n) (nodes s)) s)
    end).

(** [realm.deleteAll()] *)
Definition deleteAll : M unit :=
  in_write (put (fun _ => {| accounts := []; nodes := []; wallets := [] |})).

(** A live object stands for the row with its primary key: assignments made
    through it go to that row.  An embedded settings object is known by the
    key of the Wallet object it belongs to; [current] holds its properties
    as read when it was obtained. *)
Record LiveSettings : Type := {
  owner : Z;
  current : WalletSettingsSchema.object
}.

(** [object.settings], with [object] possibly [undefined]. *)
Definition settings_of (o : option WalletSchema.object) : M LiveSettings :=
  match o with
  | None => throw (TypeError "settings")
  | Some w =>
      ret {| owner := WalletSchema.version w; current := WalletSchema.settings w |}
  end.

(** [object.prop = ...] and [object.prop.push(...)] on a Wallet object, with
    [object] possibly [undefined]; [f] is the change to the row. *)
Definition assign_Wallet (o : option WalletSchema.object) (prop : string)
    (f : WalletSchema.object -> WalletSchema.object) : M unit :=
  match o with
  | None => throw (TypeError prop)
  | Some w =>
      in_write (put (fun s =>
        set_wallets
          (modify_pk WalletSchema.version (WalletSchema.version w) f (wallets s)) s))
  end.

(** [settings.k = v] on a live settings object. *)
Definition assign_setting (s : LiveSettings) (k : WalletSettingsSchema.key)
    (v : WalletSettingsSchema.type k) : M unit :=
  in_write (put (fun st =>
    set_wallets
      (modify_pk WalletSchema.version (owner s)
         (fun w => WalletSchema.set_settings
                     (WalletSettingsSchema.set k v (WalletSchema.settings w)) w)
         (wallets st)) st)).

(** [settings.notifications[type] = enabled] on a live settings object. *)
Definition assign_notification (s : LiveSettings) (type : string)
    (enabled : bool) : M unit :=
  in_write (put (fun st =>
    set_wallets
      (modify_pk WalletSchema.version (owner s)
         (fun w => WalletSchema.set_settings
                     (WalletSettingsSchema.set_notification type enabled
                        (WalletSchema.settings w)) w)
         (wallets st)) st)).

End WithSchemas.
End realm.

(** ** The storage module *)

Definition SCHEMA_VERSION : Z := 0.

(** Model for Account. *)
Module Account.
Section WithSchemas.
Context `{Schemas}.

Definition getObjectForId (id : string) : M (option AccountSchema.object) :=
  realm.objectForPrimaryKey_Account id.

Definition data : M (list AccountSchema.object) := realm.objects_Account.

(** lodash [values] of a list of an account: its elements, in order. *)
Definition values {A} (l : list A) : list A := l.

(** Account data for all stored accounts: a plain copy of each, with its two
    lists turned into arrays. *)
Definition getDataAsArray : M (list AccountSchema.data) :=
  accounts <- data ;;
  ret ((fun account =>
          AccountSchema.assign AccountSchema.empty
            [ AccountSchema.own_props (Some account);
              {| AccountSchema.data_name := None;
                 AccountSchema.data_addressData :=
                   Some (values (AccountSchema.addressData account));
                 AccountSchema.data_transactions :=
                   Some (values (AccountSchema.transactions account));
                 AccountSchema.data_accountName := None |} ])
       <$> accounts).

Definition create (data : AccountSchema.data) : M unit :=
  realm.write (realm.create_Account data false).

(** [{ name, ...data }]: a name in [data] wins over the argument. *)
Definition update (name : string) (data : AccountSchema.data) : M unit :=
  realm.write
    (realm.create_Account
       (AccountSchema.assign AccountSchema.empty
          [ {| AccountSchema.data_name := Some name;
               AccountSchema.data_addressData := None;
               AccountSchema.data_transactions := None;
               AccountSchema.data_accountName := None |};
            data ])
       true).

Definition delete (name : string) : M unit :=
  realm.write (o <- getObjectForId name ;; realm.delete_Account o).

Definition migrate (from to : string) : M unit :=
  accountData <- getObjectForId from ;;
  realm.write (
    (* Create account with new name. *)
    realm.create_Account
      (AccountSchema.assign AccountSchema.empty
         [ AccountSchema.own_props accountData;
           {| AccountSchema.data_name := None;
              AccountSchema.data_addressData := None;
              AccountSchema.data_transactions := None;
              AccountSchema.data_accountName := Some to |} ])
      false ;;
    (* Delete account with old name. *)
    realm.delete_Account accountData).

End WithSchemas.
End Account.

(** Model for node. *)
Module Node.
Section WithSchemas.
Context `{Schemas}.

Definition getObjectForId (id : string) : M (option NodeSchema.object) :=
  realm.objectForPrimaryKey_Node id.

Definition data : M (list NodeSchema.object) := realm.objects_Node.

(** A plain copy of every stored node. *)
Definition getDataAsArray : M (list NodeSchema.object) := data.

Definition addCustomNode (url : string) (pow : bool) : M unit :=
  realm.write (
    realm.create_Node
      {| NodeSchema.data_url := url;
         NodeSchema.data_custom := Some true;
         NodeSchema.data_pow := Some pow |}
      false).

Definition delete (url : string) : M unit :=
  node <- getObjectForId url ;;
  realm.write (realm.delete_Node node).

(** lodash [size]: 0 for [null] and [undefined], the length of an array. *)
Definition size (nodes : option (list NodeSchema.data)) : nat :=
  match nodes with
  | None => 0%nat
  | Some l => length l
  end.

Definition includes (urls : list string) (u : string) : bool :=
  bool_decide (u ∈ urls).

(** The iteratee [addNodes] hands to [each]. *)
Definition addNodes_iteratee (existingUrls : list string)
    (node : NodeSchema.data) : M unit :=
  (* If it's an existing node, just update properties. *)
  if includes existingUrls (NodeSchema.data_url node)
  then realm.create_Node node true
  else realm.create_Node node false.

Definition addNodes (nodes : option (list NodeSchema.data)) : M unit :=
  match size nodes with
  | O => ret tt
  | S _ =>
      stored <- getDataAsArray ;;
      let existingUrls := NodeSchema.url <$> stored in
      realm.write (each (default [] nodes) (addNodes_iteratee existingUrls))
  end.

End WithSchemas.
End Node.

(** Model for wallet data and settings. *)
Module Wallet.
Import WalletSettingsSchema.
Section WithSchemas.
Context `{Schemas}.

Definition version : Z := SCHEMA_VERSION.

(** The identifier defaults to the current version: [getObjectForId()]. *)
Definition getObjectForId (id : Z) : M (option WalletSchema.object) :=
  realm.objectForPrimaryKey_Wallet id.

Definition data : M (list WalletSchema.object) := realm.objects_Wallet.

(** Wallet settings for most recent version. *)
Definition latestSettings : M realm.LiveSettings :=
  dataForCurrentVersion <- getObjectForId version ;;
  realm.settings_of dataForCurrentVersion.

(** Wallet data for most recent version. *)
Definition latestData : M (option WalletSchema.object) :=
  getObjectForId version.

Definition setOnboardingComplete : M unit :=
  realm.write (
    latest <- latestData ;;
    realm.assign_Wallet latest "onboardingComplete"
      (WalletSchema.set_onboardingComplete true)).

Definition updateRemotePowSetting (payload : bool) : M unit :=
  realm.write (s <- latestSettings ;; realm.assign_setting s remotePoW payload).

Definition updateAutoPromotionSetting (payload : bool) : M unit :=
  realm.write (s <- latestSettings ;; realm.assign_setting s autoPromotion payload).

Definition updateAutoNodeSwitchingSetting (payload : bool) : M unit :=
  realm.write (s <- latestSettings ;; realm.assign_setting s autoNodeSwitching payload).

Definition updateLockScreenTimeout (payload : number) : M unit :=
  realm.write (s <- latestSettings ;; realm.assign_setting s lockScreenTimeout payload).

Definition updateLocale (payload : string) : M unit :=
  realm.write (s <- latestSettings ;; realm.assign_setting s locale payload).

Definition updateMode (payload : string) : M unit :=
  realm.write (s <- latestSettings ;; realm.assign_setting s mode payload).

Definition updateNode (payload : string) : M unit :=
  realm.write (s <- latestSettings ;; realm.assign_setting s node payload).

Definition updateLanguage (payload : string) : M unit :=
  realm.write (s <- latestSettings ;; realm.assign_setting s language payload).

(** The payload object [{ conversionRate, currency, availableCurrencies }]. *)
Record CurrencyData : Type := {
  payload_conversionRate : number;
  payload_currency : string;
  payload_availableCurrencies : list string
}.

Definition updateCurrencyData (payload : CurrencyData) : M unit :=
  realm.write (
    (s <- latestSettings ;;
     realm.assign_setting s currency (payload_currency payload)) ;;
    (s <- latestSettings ;;
     realm.assign_setting s conversionRate (payload_conversionRate payload)) ;;
    (s <- latestSettings ;;
     realm.assign_setting s availableCurrencies (payload_availableCurrencies payload))).

Definition updateTheme (payload : string) : M unit :=
  realm.write (s <- latestSettings ;; realm.assign_setting s themeName payload).

Definition setRandomlySelectedNode (payload : string) : M unit :=
  realm.write (
    (s <- latestSettings ;; realm.assign_setting s node payload) ;;
    (s <- latestSettings ;; realm.assign_setting s hasRandomizedNode true)).

Definition update2FASetting (payload : bool) : M unit :=
  realm.write (s <- latestSettings ;; realm.assign_setting s is2FAEnabled payload).

Definition updateFingerPrintAuthenticationSetting (payload : bool) : M unit :=
  realm.write (s <- latestSettings ;; realm.assign_setting s isFingerprintEnabled payload).

(** The payload object [{ buildNumber, version }]. *)
Record Versions : Type := {
  payload_buildNumber : number;
  payload_version : string
}.

Definition setVersions (payload : Versions) : M unit :=
  realm.write (
    (s <- latestSettings ;;
     realm.assign_setting s buildNumber (payload_buildNumber payload)) ;;
    (s <- latestSettings ;;
     realm.assign_setting s WalletSettingsSchema.version (payload_version payload))).

Definition acceptTerms : M unit :=
  realm.write (s <- latestSettings ;; realm.assign_setting s acceptedTerms true).

Definition acceptPrivacyPolicy : M unit :=
  realm.write (s <- latestSettings ;; realm.assign_setting s acceptedPrivacy true).

Definition toggleEmptyTransactionsDisplay : M unit :=
  realm.write (
    settings <- latestSettings ;;
    realm.assign_setting settings hideEmptyTransactions
      (negb (props (realm.current settings) hideEmptyTransactions))).

Definition completeForcedPasswordUpdate : M unit :=
  realm.write (
    s <- latestSettings ;; realm.assign_setting s completedForcedPasswordUpdate true).

Definition updateByteTritSweepSetting (payload : bool) : M unit :=
  realm.write (
    s <- latestSettings ;; realm.assign_setting s completedByteTritSweep payload).

Definition updateTraySetting (payload : bool) : M unit :=
  realm.write (s <- latestSettings ;; realm.assign_setting s isTrayEnabled payload).

(** The payload object [{ type, enabled }]. *)
Record NotificationsSetting : Type := {
  payload_type : string;
  payload_enabled : bool
}.

Definition updateNotificationsSetting (payload : NotificationsSetting) : M unit :=
  realm.write (
    s <- latestSettings ;;
    realm.assign_notification s (payload_type payload) (payload_enabled payload)).

Definition updateErrorLog (payload : string) : M unit :=
  realm.write (
    latest <- latestData ;;
    realm.assign_Wallet latest "errorLog"
      (fun w => WalletSchema.set_errorLog (WalletSchema.errorLog w ++ [payload]) w)).

Definition clearErrorLog : M unit :=
  realm.write (
    latest <- latestData ;;
    realm.assign_Wallet latest "errorLog" (WalletSchema.set_errorLog [])).

(** lodash [isEmpty] of what [getObjectForId] returns: [undefined] is empty,
    a Wallet object has its properties and is not. *)
Definition isEmpty (o : option WalletSchema.object) : bool :=
  match o with
  | None => true
  | Some _ => false
  end.

(** [{ version: Wallet.version, settings: { notifications: {} } }] *)
Definition initialData : WalletSchema.data :=
  {| WalletSchema.data_version := version;
     WalletSchema.data_settings :=
       {| data_props := fun _ => None; data_notifications := ∅ |} |}.

Definition createIfNotExists : M unit :=
  current <- getObjectForId version ;;
  let shouldCreate := isEmpty current in
  if shouldCreate
  then realm.write (realm.create_Wallet initialData)
  else ret tt.

End WithSchemas.
End Wallet.

(** ** Lifecycle *)

Section WithSchemas.
Context `{Schemas}.

(** How a promise settles. *)
Inductive Settled : Set :=
  | Resolved
  | Rejected (error : Error).

Definition Promise : Type := Realm -> Settled * Realm.

(** [new Promise((resolve, reject) => { try { body; resolve(); }
    catch (error) { reject(error); } })] *)
Definition promise_of (body : M unit) : Promise := fun r =>
  match body r with
  | (Ok _, r') => (Resolved, r')
  | (Throw error, r') => (Rejected error, r')
  end.

(** [p.then(() => q())]: [q] starts once [p] has resolved; a rejection of
    [p] is the rejection of the whole. *)
Definition then_ (p q : Promise) : Promise := fun r =>
  match p r with
  | (Resolved, r') => q r'
  | (Rejected error, r') => (Rejected error, r')
  end.

Definition purge : Promise := promise_of (realm.write realm.deleteAll).

Definition initialise : Promise := promise_of Wallet.createIfNotExists.

Definition reinitialise : Promise := then_ purge initialise.

End WithSchemas.

(** ** Vocabulary of the properties *)

Section WithSchemas.
Context `{Schemas}.

(** No write transaction is in progress: where calls from outside start. *)
Definition idle (r : Realm) : Prop := transaction r = None.

(** A computation that leaves the transaction bookkeeping alone, as
    everything a write callback is made of does. *)
Definition keeps_transaction {A} (c : M A) : Prop :=
  forall r x r', c r = (x, r') -> transaction r' = transaction r.

(** The Realm as a write callback first sees it. *)
Definition begun (r : Realm) : Realm :=
  {| objects := objects r; transaction := Some (objects r) |}.

(** The Realm after the commit of a callback that ended in [r']. *)
Definition committed (r' : Realm) : Realm :=
  {| objects := objects r'; transaction := None |}.

(** The wallet objects of one version. *)
Definition wallets_of_version (v : Z) (s : Store) : list WalletSchema.object :=
  filter (fun w => WalletSchema.version w = v) (wallets s).

(** A stored object carries what the plain object it was created from gave. *)
Definition account_matches (d : AccountSchema.data) (a : AccountSchema.object) : Prop :=
  AccountSchema.data_name d = Some (AccountSchema.name a) /\
  (forall l, AccountSchema.data_addressData d = Some l -> AccountSchema.addressData a = l) /\
  (forall l, AccountSchema.data_transactions d = Some l -> AccountSchema.transactions a = l).

(** The spec's words for one node of [addNodes]: if its URL already exists
    among the stored nodes, replace fields in place; else insert fresh. *)
Definition spec_upsert (t : list NodeSchema.object) (d : NodeSchema.data)
    : list NodeSchema.object :=
  if bool_decide (NodeSchema.data_url d ∈ (NodeSchema.url <$> t))
  then modify_pk NodeSchema.url (NodeSchema.data_url d) (NodeSchema.assign_props d) t
  else t ++ [NodeSchema.instantiate d].

(** The URLs of a batch that are not among the stored ones, in batch order. *)
Definition new_urls (stored : list NodeSchema.object) (batch : list NodeSchema.data)
    : list string :=
  filter (fun u => u ∉ (NodeSchema.url <$> stored)) ((NodeSchema.data_url <$> batch)).

(** The setters of [Wallet], each with its argument. *)
Inductive Setter : Type :=
  | SetOnboardingComplete
  | UpdateRemotePowSetting (payload : bool)
  | UpdateAutoPromotionSetting (payload : bool)
  | UpdateAutoNodeSwitchingSetting (payload : bool)
  | UpdateLockScreenTimeout (payload : number)
  | UpdateLocale (payload : string)
  | UpdateMode (payload : string)
  | UpdateNode (payload : string)
  | UpdateLanguage (payload : string)
  | UpdateCurrencyData (payload : Wallet.CurrencyData)
  | UpdateTheme (payload : string)
  | SetRandomlySelectedNode (payload : string)
  | Update2FASetting (payload : bool)
  | UpdateFingerPrintAuthenticationSetting (payload : bool)
  | SetVersions (payload : Wallet.Versions)
  | AcceptTerms
  | AcceptPrivacyPolicy
  | ToggleEmptyTransactionsDisplay
  | CompleteForcedPasswordUpdate
  | UpdateByteTritSweepSetting (payload : bool)
  | UpdateTraySetting (payload : bool)
  | UpdateNotificationsSetting (payload : Wallet.NotificationsSetting)
  | UpdateErrorLog (payload : string)
  | ClearErrorLog.

Definition call (op : Setter) : M unit :=
  match op with
  | SetOnboardingComplete => Wallet.setOnboardingComplete
  | UpdateRemotePowSetting p => Wallet.updateRemotePowSetting p
  | UpdateAutoPromotionSetting p => Wallet.updateAutoPromotionSetting p
  | UpdateAutoNodeSwitchingSetting p => Wallet.updateAutoNodeSwitchingSetting p
  | UpdateLockScreenTimeout p => Wallet.updateLockScreenTimeout p
  | UpdateLocale p => Wallet.updateLocale p
  | UpdateMode p => Wallet.updateMode p
  | UpdateNode p => Wallet.updateNode p
  | UpdateLanguage p => Wallet.updateLanguage p
  | UpdateCurrencyData p => Wallet.updateCurrencyData p
  | UpdateTheme p => Wallet.updateTheme p
  | SetRandomlySelectedNode p => Wallet.setRandomlySelectedNode p
  | Update2FASetting p => Wallet.update2FASetting p
  | UpdateFingerPrintAuthenticationSetting p =>
      Wallet.updateFingerPrintAuthenticationSetting p
  | SetVersions p => Wallet.setVersions p
  | AcceptTerms => Wallet.acceptTerms
  | AcceptPrivacyPolicy => Wallet.acceptPrivacyPolicy
  | ToggleEmptyTransactionsDisplay => Wallet.toggleEmptyTransactionsDisplay
  | CompleteForcedPasswordUpdate => Wallet.completeForcedPasswordUpdate
  | UpdateByteTritSweepSetting p => Wallet.updateByteTritSweepSetting p
  | UpdateTraySetting p => Wallet.updateTraySetting p
  | UpdateNotificationsSetting p => Wallet.updateNotificationsSetting p
  | UpdateErrorLog p => Wallet.updateErrorLog p
  | ClearErrorLog => Wallet.clearErrorLog
  end.

(** The fields of a Wallet object, down to single settings and single
    notification toggles. *)
Inductive Field : Type :=
  | FVersion
  | FOnboardingComplete
  | FErrorLog
  | FSetting (k : WalletSettingsSchema.key)
  | FNotification (type : string).

(** Field [f] of [w'] is not what it is in [w]. *)
Definition differs (f : Field) (w w' : WalletSchema.object) : Prop :=
  match f with
  | FVersion => WalletSchema.version w' <> WalletSchema.version w
  | FOnboardingComplete =>
      WalletSchema.onboardingComplete w' <> WalletSchema.onboardingComplete w
  | FErrorLog => WalletSchema.errorLog w' <> WalletSchema.errorLog w
  | FSetting k =>
      WalletSettingsSchema.props (WalletSchema.settings w') k
      <> WalletSettingsSchema.props (WalletSchema.settings w) k
  | FNotification t =>
      WalletSettingsSchema.notifications (WalletSchema.settings w') !! t
      <> WalletSettingsSchema.notifications (WalletSchema.settings w) !! t
  end.

(** The fields each setter assigns. *)
Definition designated (op : Setter) : list Field :=
  match op with
  | SetOnboardingComplete => [FOnboardingComplete]
  | UpdateRemotePowSetting _ => [FSetting WalletSettingsSchema.remotePoW]
  | UpdateAutoPromotionSetting _ => [FSetting WalletSettingsSchema.autoPromotion]
  | UpdateAutoNodeSwitchingSetting _ => [FSetting WalletSettingsSchema.autoNodeSwitching]
  | UpdateLockScreenTimeout _ => [FSetting WalletSettingsSchema.lockScreenTimeout]
  | UpdateLocale _ => [FSetting WalletSettingsSchema.locale]
  | UpdateMode _ => [FSetting WalletSettingsSchema.mode]
  | UpdateNode _ => [FSetting WalletSettingsSchema.node]
  | UpdateLanguage _ => [FSetting WalletSettingsSchema.language]
  | UpdateCurrencyData _ =>
      [FSetting WalletSettingsSchema.currency;
       FSetting WalletSettingsSchema.conversionRate;
       FSetting WalletSettingsSchema.availableCurrencies]
  | UpdateTheme _ => [FSetting WalletSettingsSchema.themeName]
  | SetRandomlySelectedNode _ =>
      [FSetting WalletSettingsSchema.node;
       FSetting WalletSettingsSchema.hasRandomizedNode]
  | Update2FASetting _ => [FSetting WalletSettingsSchema.is2FAEnabled]
  | UpdateFingerPrintAuthenticationSetting _ =>
      [FSetting WalletSettingsSchema.isFingerprintEnabled]
  | SetVersions _ =>
      [FSetting WalletSettingsSchema.buildNumber;
       FSetting WalletSettingsSchema.version]
  | AcceptTerms => [FSetting WalletSettingsSchema.acceptedTerms]
  | AcceptPrivacyPolicy => [FSetting WalletSettingsSchema.acceptedPrivacy]
  | ToggleEmptyTransactionsDisplay =>
      [FSetting WalletSettingsSchema.hideEmptyTransactions]
  | CompleteForcedPasswordUpdate =>
      [FSetting WalletSettingsSchema.completedForcedPasswordUpdate]
  | UpdateByteTritSweepSetting _ =>
      [FSetting WalletSettingsSchema.completedByteTritSweep]
  | UpdateTraySetting _ => [FSetting WalletSettingsSchema.isTrayEnabled]
  | UpdateNotificationsSetting p => [FNotification (Wallet.payload_type p)]
  | UpdateErrorLog _ => [FErrorLog]
  | ClearErrorLog => [FErrorLog]
  end.

(** What the designated fields hold once the setter has run on [w]. *)
Definition assigned (op : Setter) (w w' : WalletSchema.object) : Prop :=
  let get k := WalletSettingsSchema.props (WalletSchema.settings w') k in
  match op with
  | SetOnboardingComplete => WalletSchema.onboardingComplete w' = true
  | UpdateRemotePowSetting p => get WalletSettingsSchema.remotePoW = p
  | UpdateAutoPromotionSetting p => get WalletSettingsSchema.autoPromotion = p
  | UpdateAutoNodeSwitchingSetting p => get WalletSettingsSchema.autoNodeSwitching = p
  | UpdateLockScreenTimeout p => get WalletSettingsSchema.lockScreenTimeout = p
  | UpdateLocale p => get WalletSettingsSchema.locale = p
  | UpdateMode p => get WalletSettingsSchema.mode = p
  | UpdateNode p => get WalletSettingsSchema.node = p
  | UpdateLanguage p => get WalletSettingsSchema.language = p
  | UpdateCurrencyData p =>
      get WalletSettingsSchema.currency = Wallet.payload_currency p /\
      get WalletSettingsSchema.conversionRate = Wallet.payload_conversionRate p /\
      get WalletSettingsSchema.availableCurrencies = Wallet.payload_availableCurrencies p
  | UpdateTheme p => get WalletSettingsSchema.themeName = p
  | SetRandomlySelectedNode p =>
      get WalletSettingsSchema.node = p /\
      get WalletSettingsSchema.hasRandomizedNode = true
  | Update2FASetting p => get WalletSettingsSchema.is2FAEnabled = p
  | UpdateFingerPrintAuthenticationSetting p =>
      get WalletSettingsSchema.isFingerprintEnabled = p
  | SetVersions p =>
      get WalletSettingsSchema.buildNumber = Wallet.payload_buildNumber p /\
      get WalletSettingsSchema.version = Wallet.payload_version p
  | AcceptTerms => get WalletSettingsSchema.acceptedTerms = true
  | AcceptPrivacyPolicy => get WalletSettingsSchema.acceptedPrivacy = true
  | ToggleEmptyTransactionsDisplay =>
      get WalletSettingsSchema.hideEmptyTransactions
      = negb (WalletSettingsSchema.props (WalletSchema.settings w)
                WalletSettingsSchema.hideEmptyTransactions)
  | CompleteForcedPasswordUpdate =>
      get WalletSettingsSchema.completedForcedPasswordUpdate = true
  | UpdateByteTritSweepSetting p =>
      get WalletSettingsSchema.completedByteTritSweep = p
  | UpdateTraySetting p => get WalletSettingsSchema.isTrayEnabled = p
  | UpdateNotificationsSetting p =>
      WalletSettingsSchema.notifications (WalletSchema.settings w')
        !! Wallet.payload_type p = Some (Wallet.payload_enabled p)
  | UpdateErrorLog p => WalletSchema.errorLog w' = WalletSchema.errorLog w ++ [p]
  | ClearErrorLog => WalletSchema.errorLog w' = []
  end.

(** A setter with one designated field: there is a field such that,
    wherever the setter runs to its end, no other field of the current
    Wallet object differs afterwards. *)
Definition single_field (op : Setter) : Prop :=
  exists f : Field,
    forall r r' w w',
      idle r ->
      Wallet.latestData r = (Ok (Some w), r) ->
      call op r = (Ok tt, r') ->
      Wallet.latestData r' = (Ok (Some w'), r') ->
      forall g, differs g w w' -> g = f.

(** [w] with the settings property [k] assigned. *)
Definition with_setting (k : WalletSettingsSchema.key)
    (v : WalletSettingsSchema.type k) (w : WalletSchema.object) : WalletSchema.object :=
  WalletSchema.set_settings
    (WalletSettingsSchema.set k v (WalletSchema.settings w)) w.

(** The current Wallet object [w] once a setter has run to its end. *)
Definition row_after (op : Setter) (w : WalletSchema.object) : WalletSchema.object :=
  match op with
  | SetOnboardingComplete => WalletSchema.set_onboardingComplete true w
  | UpdateRemotePowSetting p => with_setting WalletSettingsSchema.remotePoW p w
  | UpdateAutoPromotionSetting p => with_setting WalletSettingsSchema.autoPromotion p w
  | UpdateAutoNodeSwitchingSetting p =>
      with_setting WalletSettingsSchema.autoNodeSwitching p w
  | UpdateLockScreenTimeout p => with_setting WalletSettingsSchema.lockScreenTimeout p w
  | UpdateLocale p => with_setting WalletSettingsSchema.locale p w
  | UpdateMode p => with_setting WalletSettingsSchema.mode p w
  | UpdateNode p => with_setting WalletSettingsSchema.node p w
  | UpdateLanguage p => with_setting WalletSettingsSchema.language p w
  | UpdateCurrencyData p =>
      with_setting WalletSettingsSchema.availableCurrencies
        (Wallet.payload_availableCurrencies p)
        (with_setting WalletSettingsSchema.conversionRate
           (Wallet.payload_conversionRate p)
           (with_setting WalletSettingsSchema.currency (Wallet.payload_currency p) w))
  | UpdateTheme p => with_setting WalletSettingsSchema.themeName p w
  | SetRandomlySelectedNode p =>
      with_setting WalletSettingsSchema.hasRandomizedNode true
        (with_setting WalletSettingsSchema.node p w)
  | Update2FASetting p => with_setting WalletSettingsSchema.is2FAEnabled p w
  | UpdateFingerPrintAuthenticationSetting p =>
      with_setting WalletSettingsSchema.isFingerprintEnabled p w
  | SetVersions p =>
      with_setting WalletSettingsSchema.version (Wallet.payload_version p)
        (with_setting WalletSettingsSchema.buildNumber (Wallet.payload_buildNumber p) w)
  | AcceptTerms => with_setting WalletSettingsSchema.acceptedTerms true w
  | AcceptPrivacyPolicy => with_setting WalletSettingsSchema.acceptedPrivacy true w
  | ToggleEmptyTransactionsDisplay =>
      with_setting WalletSettingsSchema.hideEmptyTransactions
        (negb (WalletSettingsSchema.props (WalletSchema.settings w)
                 WalletSettingsSchema.hideEmptyTransactions)) w
  | CompleteForcedPasswordUpdate =>
      with_setting WalletSettingsSchema.completedForcedPasswordUpdate true w
  | UpdateByteTritSweepSetting p =>
      with_setting WalletSettingsSchema.completedByteTritSweep p w
  | UpdateTraySetting p => with_setting WalletSettingsSchema.isTrayEnabled p w
  | UpdateNotificationsSetting p =>
      WalletSchema.set_settings
        (WalletSettingsSchema.set_notification
           (Wallet.payload_type p) (Wallet.payload_enabled p)
           (WalletSchema.settings w)) w
  | UpdateErrorLog p => WalletSchema.set_errorLog (WalletSchema.errorLog w ++ [p]) w
  | ClearErrorLog => WalletSchema.set_errorLog [] w
  end.

(** The Realm with the Wallet object of the current version replaced. *)
Definition replaced (w' : WalletSchema.object) (r : Realm) : Realm :=
  with_objects
    (set_wallets
       (modify_pk WalletSchema.version Wallet.version (fun _ => w')
                  (wallets (objects r)))
       (objects r)) r.

End WithSchemas.

(** ** The seed vault backup screen

    The screen that shares its source file with the storage module.  Its
    right button is labelled and acts by the step of the export and by the
    platform; [isAndroid] is imported from a module that is not among the
    sources and is a parameter here. *)
Module SeedVaultBackup.

(** What a press of the right button ends in: a method of the export
    component, or the way back. *)
Inductive Pressed : Set :=
  | onExportPress
  | goBack
  | onNextPress.

(** The translation keys of the right button's text. *)
Inductive ButtonText : Set :=
  | global_export
  | global_done
  | global_next.

Definition initialStep : string := "isViewingGeneralInfo".

Definition onRightButtonPress (isAndroid : bool) (step : string) : Pressed :=
  if String.eqb step "isExporting" && negb isAndroid
  then onExportPress
  else if String.eqb step "isSelectingSaveMethodAndroid"
       then goBack
       else onNextPress.

Definition rightButtonText (isAndroid : bool) (step : string) : ButtonText :=
  if String.eqb step "isExporting" && negb isAndroid
  then global_export
  else if String.eqb step "isSelectingSaveMethodAndroid"
       then global_done
       else global_next.

(** The text that names each action. *)
Definition text_of (p : Pressed) : ButtonText :=
  match p with
  | onExportPress => global_export
  | goBack => global_done
  | onNextPress => global_next
  end.

End SeedVaultBackup.

(** ** The interface as a whole *)

Section WithSchemas.
Context `{Schemas}.

(** Primary keys are unique in every table. *)
Definition unique_keys (s : Store) : Prop :=
  NoDup (AccountSchema.name <$> accounts s) /\
  NoDup (NodeSchema.url <$> nodes s) /\
  NoDup (WalletSchema.version <$> wallets s).

(** A computation that keeps a property of the stored objects. *)
Definition maintains (P : Store -> Prop) {A} (c : M A) : Prop :=
  forall r x r', P (objects r) -> c r = (x, r') -> P (objects r').

(** A promise awaited: its resolution returns, its rejection is thrown. *)
Definition await (p : Promise) : M unit := fun r =>
  match p r with
  | (Resolved, r') => (Ok tt, r')
  | (Rejected error, r') => (Throw error, r')
  end.

(** The calls that change what is stored, each with its arguments. *)
Inductive Operation : Type :=
  | AccountCreate (data : AccountSchema.data)
  | AccountUpdate (name : string) (data : AccountSchema.data)
  | AccountDelete (name : string)
  | AccountMigrate (from to : string)
  | NodeAddCustomNode (url : string) (pow : bool)
  | NodeDelete (url : string)
  | NodeAddNodes (nodes : option (list NodeSchema.data))
  | WalletSet (op : Setter)
  | WalletCreateIfNotExists
  | Purge
  | Initialise
  | Reinitialise.

Definition run (op : Operation) : M unit :=
  match op with
  | AccountCreate d => Account.create d
  | AccountUpdate name d => Account.update name d
  | AccountDelete name => Account.delete name
  | AccountMigrate from to => Account.migrate from to
  | NodeAddCustomNode url pow => Node.addCustomNode url pow
  | NodeDelete url => Node.delete url
  | NodeAddNodes nodes => Node.addNodes nodes
  | WalletSet op => call op
  | WalletCreateIfNotExists => Wallet.createIfNotExists
  | Purge => await purge
  | Initialise => await initialise
  | Reinitialise => await reinitialise
  end.

(** A call that keeps primary keys unique, leaves no write scope open
    behind it, and changes nothing when it throws. *)
Definition tidy (c : M unit) : Prop :=
  forall r x r',
    c r = (x, r') ->
    (unique_keys (objects r) -> unique_keys (objects r')) /\
    (idle r -> idle r') /\
    (forall e, x = Throw e -> r' = r).

(** A caller that makes the calls one after the other and goes on after a
    call that throws. *)
Definition run_all (ops : list Operation) (r : Realm) : Realm :=
  foldl (fun r op => snd (run op r)) r ops.

(** Field [f] is the same in [w] and [w']. *)
Definition agree_on (f : Field) (w w' : WalletSchema.object) : Prop :=
  match f with
  | FVersion => WalletSchema.version w' = WalletSchema.version w
  | FOnboardingComplete =>
      WalletSchema.onboardingComplete w' = WalletSchema.onboardingComplete w
  | FErrorLog => WalletSchema.errorLog w' = WalletSchema.errorLog w
  | FSetting k =>
      WalletSettingsSchema.props (WalletSchema.settings w') k
      = WalletSettingsSchema.props (WalletSchema.settings w) k
  | FNotification t =>
      WalletSettingsSchema.notifications (WalletSchema.settings w') !! t
      = WalletSettingsSchema.notifications (WalletSchema.settings w) !! t
  end.

End WithSchemas.

(** ** Sample data *)

Module Sample.

Definition schemas : Schemas :=
  {| Address := string;
     Transaction := string;
     settingsDefault := fun k =>
       match k return WalletSettingsSchema.type k with
       | WalletSettingsSchema.remotePoW => false
       | WalletSettingsSchema.autoPromotion => true
       | WalletSettingsSchema.autoNodeSwitching => true
       | WalletSettingsSchema.lockScreenTimeout => 3
       | WalletSettingsSchema.locale => "en"
       | WalletSettingsSchema.mode => "Standard"
       | WalletSettingsSchema.node => "https://node.example:443"
       | WalletSettingsSchema.language => "English (International)"
       | WalletSettingsSchema.currency => "USD"
       | WalletSettingsSchema.conversionRate => 1
       | WalletSettingsSchema.availableCurrencies => ["USD"; "EUR"]
       | WalletSettingsSchema.themeName => "Default"
       | WalletSettingsSchema.hasRandomizedNode => false
       | WalletSettingsSchema.is2FAEnabled => false
       | WalletSettingsSchema.isFingerprintEnabled => false
       | WalletSettingsSchema.buildNumber => 0
       | WalletSettingsSchema.version => "0.0.0"
       | WalletSettingsSchema.acceptedTerms => false
       | WalletSettingsSchema.acceptedPrivacy => false
       | WalletSettingsSchema.hideEmptyTransactions => false
       | WalletSettingsSchema.completedForcedPasswordUpdate => false
       | WalletSettingsSchema.completedByteTritSweep => false
       | WalletSettingsSchema.isTrayEnabled => true
       end;
     notificationsDefault := {[ "general" := true ]};
     onboardingCompleteDefault := false;
     customDefault := false;
     powDefault := false |}.

#[local] Existing Instance schemas.

Definition alice : AccountSchema.object :=
  {| AccountSchema.name := "alice";
     AccountSchema.addressData := ["ADDRESS9A"; "ADDRESS9B"];
     AccountSchema.transactions := ["TX9HASH"] |}.

Definition node_a : NodeSchema.object :=
  {| NodeSchema.url := "a"; NodeSchema.custom := false; NodeSchema.pow := false |}.

Definition wallet : WalletSchema.object :=
  WalletSchema.instantiate Wallet.initialData.

(** A Realm with nothing stored. *)
Definition blank : Realm :=
  {| objects := {| accounts := []; nodes := []; wallets := [] |};
     transaction := None |}.

(** A Realm with one account, one node and the Wallet object. *)
Definition populated : Realm :=
  {| objects := {| accounts := [alice]; nodes := [node_a]; wallets := [wallet] |};
     transaction := None |}.

(** Accounts and a node, but no Wallet object. *)
Definition walletless : Realm :=
  {| objects := {| accounts := [alice]; nodes := [node_a]; wallets := [] |};
     transaction := None |}.

Definition plain_node (u : string) (c : option bool) : NodeSchema.data :=
  {| NodeSchema.data_url := u; NodeSchema.data_custom := c;
     NodeSchema.data_pow := None |}.

End Sample.

(** ** The monad and the write scope *)

Section WithSchemas.
Context `{Schemas}.

Lemma bind_ok {A B} (c : M A) (k : A -> M B) r a r' :
  c r = (Ok a, r') -> bind c k r = k a r'.
Proof. intros E. unfold bind. by rewrite E. Qed.

Lemma bind_throw {A B} (c : M A) (k : A -> M B) r e r' :
  c r = (Throw e, r') -> bind c k r = (Throw e, r').
Proof. intros E. unfold bind. by rewrite E. Qed.

Lemma keeps_ret {A} (a : A) : keeps_transaction (ret a).
Proof. intros r x r' [= <- <-]. done. Qed.

Lemma keeps_throw {A} e : keeps_transaction (@throw _ A e).
Proof. intros r x r' [= <- <-]. done. Qed.

Lemma keeps_bind {A B} (c : M A) (k : A -> M B) :
  keeps_transaction c -> (forall a, keeps_transaction (k a)) ->
  keeps_transaction (bind c k).
Proof.
  intros Hc Hk r x r'. unfold bind.
  destruct (c r) as [[a|e] r1] eqn:E.
  - intros E2. rewrite (Hk _ _ _ _ E2). eauto.
  - intros [= <- <-]. eauto.
Qed.

Lemma keeps_get {A} (f : Store -> A) : keeps_transaction (realm.get f).
Proof. intros r x r' [= <- <-]. done. Qed.

Lemma keeps_put f : keeps_transaction (realm.put f).
Proof. intros r x r' [= <- <-]. done. Qed.

Lemma keeps_in_write {A} (c : M A) :
  keeps_transaction c -> keeps_transaction (realm.in_write c).
Proof.
  intros Hc r x r'. unfold realm.in_write.
  destruct (transaction r) eqn:E.
  - intros Hr. rewrite <- E. eapply Hc, Hr.
  - intros [= <- <-]. done.
Qed.

Lemma keeps_each {A} (l : list A) (f : A -> M unit) :
  (forall a, keeps_transaction (f a)) -> keeps_transaction (each l f).
Proof.
  intros Hf. induction l as [|a l IH]; simpl.
  - apply keeps_ret.
  - apply keeps_bind; auto.
Qed.

Lemma keeps_if {A} (b : bool) (c d : M A) :
  keeps_transaction c -> keeps_transaction d ->
  keeps_transaction (if b then c else d).
Proof. by destruct b. Qed.

Lemma keeps_create_Account d u : keeps_transaction (realm.create_Account d u).
Proof.
  apply keeps_in_write. destruct (AccountSchema.data_name d); [|apply keeps_throw].
  apply keeps_bind; [apply keeps_get|]. intros t.
  destruct (lookup_pk _ _ t); [apply keeps_if|];
    auto using keeps_put, keeps_throw.
Qed.

Lemma keeps_create_Node d u : keeps_transaction (realm.create_Node d u).
Proof.
  apply keeps_in_write, keeps_bind; [apply keeps_get|]. intros t.
  destruct (lookup_pk _ _ t); [apply keeps_if|];
    auto using keeps_put, keeps_throw.
Qed.

Lemma keeps_create_Wallet d : keeps_transaction (realm.create_Wallet d).
Proof.
  apply keeps_in_write, keeps_bind; [apply keeps_get|]. intros t.
  destruct (lookup_pk _ _ t); auto using keeps_put, keeps_throw.
Qed.

Lemma keeps_delete_Account o : keeps_transaction (realm.delete_Account o).
Proof.
  apply keeps_in_write. destruct o; [apply keeps_put | apply keeps_throw].
Qed.

Lemma keeps_delete_Node o : keeps_transaction (realm.delete_Node o).
Proof.
  apply keeps_in_write. destruct o; [apply keeps_put | apply keeps_throw].
Qed.

Lemma keeps_deleteAll : keeps_transaction realm.deleteAll.
Proof. apply keeps_in_write, keeps_put. Qed.

Lemma keeps_settings_of o : keeps_transaction (realm.settings_of o).
Proof. destruct o; simpl; [apply keeps_ret | apply keeps_throw]. Qed.

Lemma keeps_assign_Wallet o p f : keeps_transaction (realm.assign_Wallet o p f).
Proof.
  destruct o; simpl; [apply keeps_in_write, keeps_put | apply keeps_throw].
Qed.

Lemma keeps_assign_setting s k v : keeps_transaction (realm.assign_setting s k v).
Proof. apply keeps_in_write, keeps_put. Qed.

Lemma keeps_assign_notification s t b :
  keeps_transaction (realm.assign_notification s t b).
Proof. apply keeps_in_write, keeps_put. Qed.

Lemma keeps_latestSettings : keeps_transaction Wallet.latestSettings.
Proof.
  apply keeps_bind; [apply keeps_get|]. intros o. apply keeps_settings_of.
Qed.

Lemma keeps_latestData : keeps_transaction Wallet.latestData.
Proof. apply keeps_get. Qed.

(** A write scope opened inside another is refused, and nothing changes. *)
Lemma write_nested {A} (callback : M A) r before :
  transaction r = Some before ->
  realm.write callback r = (Throw AlreadyInTransaction, r).
Proof.
  intros E. unfold realm.write, bind, realm.beginTransaction. by rewrite E.
Qed.

(** A callback that returns is committed. *)
Lemma write_commits {A} (callback : M A) r a r' :
  idle r -> keeps_transaction callback ->
  callback (begun r) = (Ok a, r') ->
  realm.write callback r = (Ok tt, committed r').
Proof.
  intros Hidle Hk E. pose proof (Hk _ _ _ E) as Ht. simpl in Ht.
  unfold realm.write, bind, realm.beginTransaction, try_catch.
  rewrite Hidle. fold (begun r). rewrite E. simpl.
  unfold realm.commitTransaction. by rewrite Ht.
Qed.

(** A callback that throws is cancelled: the objects are those from before
    the scope, and the error is the callback's. *)
Lemma write_rolls_back {A} (callback : M A) r e r' :
  idle r -> keeps_transaction callback ->
  callback (begun r) = (Throw e, r') ->
  realm.write callback r = (Throw e, r).
Proof.
  intros Hidle Hk E. pose proof (Hk _ _ _ E) as Ht. simpl in Ht.
  unfold realm.write, bind, realm.beginTransaction, try_catch.
  rewrite Hidle. fold (begun r). rewrite E. simpl.
  unfold realm.cancelTransaction, throw. rewrite Ht.
  destruct r as [o t]. unfold idle in Hidle. simpl in *. by subst.
Qed.

End WithSchemas.

(** ** Primary-key tables *)

Section TableFacts.
Context {E K : Type} `{EqDecision K} (pk : E -> K).

Lemma lookup_pk_cons k x t :
  lookup_pk pk k (x :: t) = if decide (pk x = k) then Some x else lookup_pk pk k t.
Proof. unfold lookup_pk. simpl. by case_bool_decide; case_decide. Qed.

Lemma lookup_pk_Some k t e :
  lookup_pk pk k t = Some e -> pk e = k /\ e ∈ t.
Proof.
  induction t as [|x t IH]; [done|].
  rewrite lookup_pk_cons. case_decide as Hx.
  - intros [= ->]. split; [done | left].
  - intros Hf. destruct (IH Hf) as [? ?]. split; [done | by right].
Qed.

Lemma lookup_pk_None k t :
  lookup_pk pk k t = None <-> k ∉ pk <$> t.
Proof.
  induction t as [|x t IH].
  - split; [intros _; apply not_elem_of_nil | done].
  - rewrite lookup_pk_cons, fmap_cons, not_elem_of_cons. case_decide as Hx.
    + split; [done | intros [Hne _]; by destruct Hne].
    + rewrite IH. split; [intros ?; split; [congruence | done] | by intros [_ ?]].
Qed.

Lemma lookup_pk_is_Some k t :
  is_Some (lookup_pk pk k t) <-> k ∈ pk <$> t.
Proof.
  destruct (decide (k ∈ pk <$> t)) as [Hin|Hout].
  - split; [done | intros _].
    destruct (lookup_pk pk k t) eqn:Hl; [done|].
    by apply lookup_pk_None in Hl.
  - split; [|done]. intros [e He].
    apply lookup_pk_None in Hout. congruence.
Qed.

Lemma lookup_pk_app k t t' :
  lookup_pk pk k (t ++ t') =
  match lookup_pk pk k t with
  | Some e => Some e
  | None => lookup_pk pk k t'
  end.
Proof.
  induction t as [|x t IH]; [done|].
  rewrite <- app_comm_cons, !lookup_pk_cons. by case_decide.
Qed.

Lemma lookup_pk_new t e :
  pk e ∉ pk <$> t -> lookup_pk pk (pk e) (t ++ [e]) = Some e.
Proof.
  intros Hout. rewrite lookup_pk_app.
  apply lookup_pk_None in Hout. rewrite Hout.
  rewrite lookup_pk_cons. by rewrite decide_True.
Qed.

Lemma modify_pk_keys k f t :
  (forall e, pk (f e) = pk e) -> pk <$> modify_pk pk k f t = pk <$> t.
Proof.
  intros Hf. induction t as [|x t IH]; [done|]. simpl.
  case_decide; rewrite !fmap_cons; [by rewrite Hf | by rewrite IH].
Qed.

Lemma filter_key_absent k t :
  k ∉ pk <$> t -> filter (fun x => pk x = k) t = [].
Proof.
  induction t as [|x t IH]; [done|].
  rewrite fmap_cons, not_elem_of_cons. intros [Hne Hout].
  rewrite filter_cons_False by congruence. by apply IH.
Qed.

(** With unique keys, a key picks out one row. *)
Lemma filter_key_unique k t e :
  NoDup (pk <$> t) -> lookup_pk pk k t = Some e ->
  filter (fun x => pk x = k) t = [e].
Proof.
  induction t as [|x t IH]; [done|].
  rewrite fmap_cons, NoDup_cons, lookup_pk_cons. intros [Hx Hnd].
  case_decide as Hk.
  - intros [= ->]. rewrite filter_cons_True by done. f_equal.
    apply filter_key_absent. by rewrite Hk in Hx.
  - intros Hf. rewrite filter_cons_False by done. by apply IH.
Qed.

End TableFacts.

(** ** Accounts *)

Section WithSchemas.
Context `{Schemas}.

Lemma getObjectForId_Account id r :
  Account.getObjectForId id r
  = (Ok (lookup_pk AccountSchema.name id (accounts (objects r))), r).
Proof. done. Qed.

(** The plain object [migrate] builds has no [name] of its own making: it
    carries the old name when the account exists, and none otherwise. *)
Lemma migrate_data_name o to :
  AccountSchema.data_name
    (AccountSchema.assign AccountSchema.empty
       [ AccountSchema.own_props o;
         {| AccountSchema.data_name := None;
            AccountSchema.data_addressData := None;
            AccountSchema.data_transactions := None;
            AccountSchema.data_accountName := Some to |} ])
  = AccountSchema.name <$> o.
Proof. by destruct o. Qed.

(** [create] without the update flag, inside a write scope. *)
Lemma create_Account_duplicate d k a r before :
  transaction r = Some before ->
  AccountSchema.data_name d = Some k ->
  lookup_pk AccountSchema.name k (accounts (objects r)) = Some a ->
  realm.create_Account d false r = (Throw (DuplicatePrimaryKey "Account"), r).
Proof.
  intros Ht Hd Hl. unfold realm.create_Account, realm.in_write.
  rewrite Ht, Hd. unfold bind, realm.get. by rewrite Hl.
Qed.

Lemma create_Account_no_key d u r before :
  transaction r = Some before ->
  AccountSchema.data_name d = None ->
  realm.create_Account d u r = (Throw (MissingPropertyValue "Account.name"), r).
Proof.
  intros Ht Hd. unfold realm.create_Account, realm.in_write. by rewrite Ht, Hd.
Qed.

Lemma create_Account_fresh d k r before :
  transaction r = Some before ->
  AccountSchema.data_name d = Some k ->
  lookup_pk AccountSchema.name k (accounts (objects r)) = None ->
  realm.create_Account d false r
  = (Ok tt, with_objects
              (set_accounts (accounts (objects r) ++ [AccountSchema.instantiate k d])
                            (objects r)) r).
Proof.
  intros Ht Hd Hl. unfold realm.create_Account, realm.in_write.
  rewrite Ht, Hd. unfold bind, realm.get. by rewrite Hl.
Qed.

Lemma keeps_migrate_callback o d :
  keeps_transaction (realm.create_Account d false ;; realm.delete_Account o).
Proof.
  apply keeps_bind; [apply keeps_create_Account | intros _; apply keeps_delete_Account].
Qed.

(** [migrate] never gets past its [create]: whatever is stored, the call
    throws and the Realm is left as it was. *)
Lemma migrate_never_succeeds (r : Realm) (from to : string) :
  exists e, Account.migrate from to r = (Throw e, r).
Proof.
  unfold Account.migrate.
  rewrite (bind_ok _ _ _ _ _ (getObjectForId_Account from r)).
  set (o := lookup_pk AccountSchema.name from (accounts (objects r))).
  destruct (transaction r) as [before|] eqn:Ht.
  { eexists. by eapply write_nested. }
  destruct o as [a|] eqn:Ho; subst o.
  - exists (DuplicatePrimaryKey "Account").
    eapply write_rolls_back; [done | apply keeps_migrate_callback |].
    apply bind_throw.
    destruct (lookup_pk_Some _ _ _ _ Ho) as [Hname _].
    apply (create_Account_duplicate _ from a _ (objects r)); [done | | exact Ho].
    rewrite migrate_data_name. simpl. by rewrite Hname.
  - exists (MissingPropertyValue "Account.name").
    eapply write_rolls_back; [done | apply keeps_migrate_callback |].
    apply bind_throw. eapply create_Account_no_key; [done|].
    by rewrite migrate_data_name.
Qed.

End WithSchemas.

(** C1 (the code departs from it).  Migrating the stored account alice to
    the name bob: the plain object handed to [create] sets [accountName], not
    [name], so it still carries alice's name, the store refuses the existing
    primary key, and the write scope is cancelled.  Afterwards alice is
    still stored, unchanged, and nothing is stored under bob. *)
Theorem migrate_alice_bob_refused :
  let r := Sample.populated in
  Account.migrate (H := Sample.schemas) "alice" "bob" r
    = (Throw (DuplicatePrimaryKey "Account"), r) /\
  Account.getObjectForId (H := Sample.schemas) "alice" r = (Ok (Some Sample.alice), r) /\
  Account.getObjectForId (H := Sample.schemas) "bob" r = (Ok None, r).
Proof. repeat split; vm_compute; reflexivity. Qed.

(** ** Nodes *)

Section WithSchemas.
Context `{Schemas}.

Lemma set_nodes_same s : set_nodes (nodes s) s = s.
Proof. by destruct s. Qed.

Lemma with_objects_same r : with_objects (objects r) r = r.
Proof. by destruct r. Qed.

Lemma getObjectForId_Node id r :
  Node.getObjectForId id r
  = (Ok (lookup_pk NodeSchema.url id (nodes (objects r))), r).
Proof. done. Qed.

Lemma create_Node_existing d r before :
  transaction r = Some before ->
  NodeSchema.data_url d ∈ NodeSchema.url <$> nodes (objects r) ->
  realm.create_Node d true r
  = (Ok tt, with_objects
              (set_nodes (modify_pk NodeSchema.url (NodeSchema.data_url d)
                            (NodeSchema.assign_props d) (nodes (objects r)))
                         (objects r)) r).
Proof.
  intros Ht Hin. apply lookup_pk_is_Some in Hin as [o Ho].
  unfold realm.create_Node, realm.in_write. rewrite Ht.
  unfold bind, realm.get. by rewrite Ho.
Qed.

Lemma create_Node_duplicate d r before :
  transaction r = Some before ->
  NodeSchema.data_url d ∈ NodeSchema.url <$> nodes (objects r) ->
  realm.create_Node d false r = (Throw (DuplicatePrimaryKey "Node"), r).
Proof.
  intros Ht Hin. apply lookup_pk_is_Some in Hin as [o Ho].
  unfold realm.create_Node, realm.in_write. rewrite Ht.
  unfold bind, realm.get. by rewrite Ho.
Qed.

Lemma create_Node_fresh d u r before :
  transaction r = Some before ->
  NodeSchema.data_url d ∉ NodeSchema.url <$> nodes (objects r) ->
  realm.create_Node d u r
  = (Ok tt, with_objects
              (set_nodes (nodes (objects r) ++ [NodeSchema.instantiate d])
                         (objects r)) r).
Proof.
  intros Ht Hout. apply lookup_pk_None in Hout.
  unfold realm.create_Node, realm.in_write. rewrite Ht.
  unfold bind, realm.get. by rewrite Hout.
Qed.

Lemma keeps_addNodes_iteratee existingUrls node :
  keeps_transaction (Node.addNodes_iteratee existingUrls node).
Proof. apply keeps_if; apply keeps_create_Node. Qed.

Lemma filter_ext_elem {A} (P Q : A -> Prop)
    `{forall x, Decision (P x)} `{forall x, Decision (Q x)} (l : list A) :
  (forall x, x ∈ l -> P x <-> Q x) -> filter P l = filter Q l.
Proof.
  induction l as [|x l IH]; intros Hext; [done|].
  rewrite !filter_cons.
  rewrite IH by (intros y Hy; apply Hext; by right).
  pose proof (Hext x ltac:(left)) as Hx.
  do 2 case_decide; tauto || done.
Qed.

(** The URLs the spec's upsert leaves, when no new URL comes twice. *)
Lemma spec_upsert_urls (batch : list NodeSchema.data) :
  forall t : list NodeSchema.object,
    NoDup (new_urls t batch) ->
    NodeSchema.url <$> foldl spec_upsert t batch
    = (NodeSchema.url <$> t) ++ new_urls t batch.
Proof.
  unfold new_urls.
  induction batch as [|d batch IH]; intros t Hnd.
  { simpl. by rewrite app_nil_r. }
  rewrite fmap_cons, filter_cons in Hnd |- *. cbn [foldl].
  unfold spec_upsert at 2. case_bool_decide as Hin.
  - rewrite decide_False in Hnd |- * by tauto.
    rewrite IH; rewrite modify_pk_keys by done; done.
  - rewrite decide_True in Hnd |- * by done.
    apply NoDup_cons in Hnd as [Hhead Hnd].
    assert (Hsame :
      filter (fun u => u ∉ NodeSchema.url <$> t ++ [NodeSchema.instantiate d])
             (NodeSchema.data_url <$> batch)
      = filter (fun u => u ∉ NodeSchema.url <$> t) (NodeSchema.data_url <$> batch)).
    { apply filter_ext_elem. intros u Hu.
      rewrite fmap_app, not_elem_of_app. simpl.
      rewrite not_elem_of_cons. split; [tauto|]. intros Hout.
      split; [done|]. split; [|apply not_elem_of_nil].
      intros ->. apply Hhead. by apply list_elem_of_filter. }
    rewrite IH by (by rewrite Hsame).
    rewrite Hsame, fmap_app. simpl. by rewrite <- app_assoc.
Qed.

(** Inside the write scope, the loop of [addNodes] does what the spec's
    upsert does, as long as no URL that was not stored comes twice. *)
Lemma each_addNodes_iteratee existingUrls (batch : list NodeSchema.data) :
  forall r before,
    transaction r = Some before ->
    (forall u, u ∈ existingUrls -> u ∈ NodeSchema.url <$> nodes (objects r)) ->
    (forall u, u ∈ NodeSchema.data_url <$> batch -> u ∉ existingUrls ->
               u ∉ NodeSchema.url <$> nodes (objects r)) ->
    NoDup (filter (fun u => u ∉ existingUrls) (NodeSchema.data_url <$> batch)) ->
    each batch (Node.addNodes_iteratee existingUrls) r
    = (Ok tt, with_objects
                (set_nodes (foldl spec_upsert (nodes (objects r)) batch) (objects r)) r).
Proof.
  induction batch as [|d batch IH]; intros r before Ht Hold Hnew Hnd.
  { simpl. unfold ret. by rewrite set_nodes_same, with_objects_same. }
  rewrite fmap_cons, filter_cons in Hnd. cbn [foldl each].
  unfold Node.addNodes_iteratee at 1, Node.includes, spec_upsert at 2.
  case_bool_decide as Hin.
  - rewrite decide_False in Hnd by tauto.
    rewrite bool_decide_eq_true_2 by auto.
    erewrite bind_ok by (eapply create_Node_existing; eauto).
    erewrite IH; simpl; rewrite ?modify_pk_keys by done; eauto.
    intros u Hu. apply Hnew. rewrite fmap_cons. by right.
  - rewrite decide_True in Hnd by done.
    apply NoDup_cons in Hnd as [Hhead Hnd].
    assert (Hfresh : NodeSchema.data_url d ∉ NodeSchema.url <$> nodes (objects r)).
    { apply Hnew; [rewrite fmap_cons; left | done]. }
    rewrite bool_decide_eq_false_2 by done.
    erewrite bind_ok by (eapply create_Node_fresh; eauto).
    erewrite IH; simpl; eauto.
    + intros u Hu. rewrite fmap_app, elem_of_app. left. auto.
    + intros u Hu Hout. rewrite fmap_app, not_elem_of_app. split.
      * apply Hnew; [rewrite fmap_cons; by right | done].
      * simpl. rewrite not_elem_of_cons. split; [|apply not_elem_of_nil].
        intros ->. apply Hhead. by apply list_elem_of_filter.
Qed.

(** [addNodes] on a batch with something in it. *)
Lemma addNodes_nonempty (d : NodeSchema.data) batch r :
  Node.addNodes (Some (d :: batch)) r
  = realm.write
      (each (d :: batch)
            (Node.addNodes_iteratee (NodeSchema.url <$> nodes (objects r)))) r.
Proof. done. Qed.

End WithSchemas.

Section WithSchemas.
Context `{Schemas}.

(** C4 (as amended).  For every batch in which no URL that is not yet stored
    comes twice, [addNodes] returns, in a single write scope, and leaves the
    nodes the spec's upsert leaves: a node whose URL is stored has the fields
    its input supplies replaced in place, the others are appended in batch
    order; URLs stay unique.  In particular, starting without nodes,
    [addNodes] of a (custom) and b (not custom) and then of a (not custom)
    leaves exactly the two nodes a and b, a not custom and b as it was. *)
Theorem addNodes_upserts_batch (r : Realm) (batch : list NodeSchema.data) :
  idle r ->
  NoDup (new_urls (nodes (objects r)) batch) ->
  (exists r',
      Node.addNodes (Some batch) r = (Ok tt, r') /\
      idle r' /\
      (batch <> [] ->
       Node.addNodes (Some batch) r
       = realm.write
           (each batch
              (Node.addNodes_iteratee (NodeSchema.url <$> nodes (objects r)))) r) /\
      objects r'
      = set_nodes (foldl spec_upsert (nodes (objects r)) batch) (objects r) /\
      NodeSchema.url <$> nodes (objects r')
      = (NodeSchema.url <$> nodes (objects r)) ++ new_urls (nodes (objects r)) batch /\
      (NoDup (NodeSchema.url <$> nodes (objects r)) ->
       NoDup (NodeSchema.url <$> nodes (objects r')))) /\
  (nodes (objects r) = [] ->
   exists r1 r2 a b,
     Node.addNodes (Some [Sample.plain_node "a" (Some true);
                          Sample.plain_node "b" (Some false)]) r = (Ok tt, r1) /\
     Node.addNodes (Some [Sample.plain_node "a" (Some false)]) r1 = (Ok tt, r2) /\
     Node.getObjectForId "b" r1 = (Ok (Some b), r1) /\
     nodes (objects r2) = [a; b] /\
     NodeSchema.url a = "a" /\ NodeSchema.custom a = false /\
     NodeSchema.url b = "b" /\ NodeSchema.custom b = false).
Proof.
  intros Hidle Hnd. split.
  - assert (Hurls :
      NodeSchema.url <$> foldl spec_upsert (nodes (objects r)) batch
      = (NodeSchema.url <$> nodes (objects r)) ++ new_urls (nodes (objects r)) batch)
      by (by apply spec_upsert_urls).
    assert (Huniq :
      NoDup (NodeSchema.url <$> nodes (objects r)) ->
      NoDup (NodeSchema.url <$> foldl spec_upsert (nodes (objects r)) batch)).
    { intros Hu. rewrite Hurls. apply NoDup_app. split; [done|]. split; [|done].
      intros u Hu1 Hu2. unfold new_urls in Hu2.
      apply list_elem_of_filter in Hu2 as [Hout _]. done. }
    destruct batch as [|d batch].
    { exists r. simpl. rewrite set_nodes_same. unfold new_urls. simpl.
      rewrite app_nil_r. done. }
    eexists. split; [|split; [|split; [|split; [|split]]]].
    + rewrite addNodes_nonempty.
      eapply write_commits; [done | |].
      * apply keeps_each. intros a. apply keeps_addNodes_iteratee.
      * eapply (each_addNodes_iteratee _ _ (begun r)); simpl; eauto.
    + done.
    + intros _. apply addNodes_nonempty.
    + done.
    + simpl. exact Hurls.
    + simpl. exact Huniq.
  - intros Hempty. destruct r as [[acc nd wl] t].
    unfold idle in Hidle. simpl in Hidle, Hempty. subst.
    set (a1 := NodeSchema.instantiate (Sample.plain_node "a" (Some true))).
    set (b := NodeSchema.instantiate (Sample.plain_node "b" (Some false))).
    set (a2 := NodeSchema.assign_props (Sample.plain_node "a" (Some false)) a1).
    exists {| objects := {| accounts := acc; nodes := [a1; b]; wallets := wl |};
              transaction := None |},
           {| objects := {| accounts := acc; nodes := [a2; b]; wallets := wl |};
              transaction := None |}, a2, b.
    repeat split; vm_compute; reflexivity.
Qed.

End WithSchemas.

Section WithSchemas.
Context `{Schemas}.

(** C3 (as amended).  [addCustomNode] is a plain create.  For a URL already
    among the stored nodes it throws the store's duplicate-key error and
    leaves the Realm as it was; for a URL not stored it appends the node with
    that URL, marked custom, with the given [pow].  Either way no URL is
    stored twice. *)
Theorem addCustomNode_creates_or_refuses (r : Realm) (url : string) (pow : bool) :
  idle r ->
  NoDup (NodeSchema.url <$> nodes (objects r)) ->
  (url ∈ NodeSchema.url <$> nodes (objects r) ->
   Node.addCustomNode url pow r = (Throw (DuplicatePrimaryKey "Node"), r)) /\
  (url ∉ NodeSchema.url <$> nodes (objects r) ->
   exists r',
     Node.addCustomNode url pow r = (Ok tt, r') /\
     idle r' /\
     objects r'
     = set_nodes (nodes (objects r)
                    ++ [{| NodeSchema.url := url; NodeSchema.custom := true;
                           NodeSchema.pow := pow |}])
                 (objects r)) /\
  (forall x r', Node.addCustomNode url pow r = (x, r') ->
                NoDup (NodeSchema.url <$> nodes (objects r'))).
Proof.
  intros Hidle Huniq.
  set (d := {| NodeSchema.data_url := url; NodeSchema.data_custom := Some true;
               NodeSchema.data_pow := Some pow |}).
  assert (Hdup : url ∈ NodeSchema.url <$> nodes (objects r) ->
    Node.addCustomNode url pow r = (Throw (DuplicatePrimaryKey "Node"), r)).
  { intros Hin. eapply write_rolls_back; [done | apply keeps_create_Node |].
    by eapply (create_Node_duplicate d (begun r)). }
  assert (Hnew : url ∉ NodeSchema.url <$> nodes (objects r) ->
    Node.addCustomNode url pow r
    = (Ok tt, committed
                (with_objects
                   (set_nodes (nodes (objects r) ++ [NodeSchema.instantiate d])
                              (objects r)) (begun r)))).
  { intros Hout. eapply write_commits; [done | apply keeps_create_Node |].
    by eapply (create_Node_fresh d false (begun r)). }
  split; [done|]. split.
  - intros Hout. eexists. split; [by apply Hnew|]. done.
  - intros x r' Hrun. destruct (decide (url ∈ NodeSchema.url <$> nodes (objects r))) as [Hin|Hout].
    + rewrite (Hdup Hin) in Hrun. by injection Hrun as <- <-.
    + rewrite (Hnew Hout) in Hrun. injection Hrun as <- <-. simpl.
      rewrite fmap_app. apply NoDup_app. split; [done|]. split.
      * intros u Hu Hu'. simpl in Hu'. apply list_elem_of_singleton in Hu'. by subst.
      * apply NoDup_singleton.
Qed.

(** Where a write scope is already open, a batch with something in it is
    refused: the scope [addNodes] opens for it would be nested. *)
Lemma addNodes_nested d batch r before :
  transaction r = Some before ->
  Node.addNodes (Some (d :: batch)) r = (Throw AlreadyInTransaction, r).
Proof. intros Ht. rewrite addNodes_nonempty. by eapply write_nested. Qed.

(** C9.  [addNodes] of an empty list, or of [null] or [undefined], returns
    at once and leaves the Realm exactly as it was, the transaction state
    included.  No write scope is opened: the call returns also where a write
    scope is open already, where every batch with a node in it is refused
    for opening a nested one. *)
Theorem addNodes_nothing_to_add (r : Realm) :
  Node.size None = 0%nat /\
  Node.size (Some []) = 0%nat /\
  Node.addNodes None r = (Ok tt, r) /\
  Node.addNodes (Some []) r = (Ok tt, r) /\
  (forall before d batch,
      transaction r = Some before ->
      Node.addNodes None r = (Ok tt, r) /\
      Node.addNodes (Some []) r = (Ok tt, r) /\
      Node.addNodes (Some (d :: batch)) r = (Throw AlreadyInTransaction, r)).
Proof.
  do 4 (split; [reflexivity|]).
  intros before d batch Ht.
  do 2 (split; [reflexivity|]).
  by eapply addNodes_nested.
Qed.

(** A loop that throws at one of its items throws that error. *)
Lemma each_throws {A} (done rest : list A) (failing : A) (iteratee : A -> M unit)
    r r1 r2 e :
  each done iteratee r = (Ok tt, r1) ->
  iteratee failing r1 = (Throw e, r2) ->
  each (done ++ failing :: rest) iteratee r = (Throw e, r2).
Proof.
  revert r. induction done as [|a done IH]; intros r Hdone Hfail; simpl in *.
  - injection Hdone as <-. by apply bind_throw.
  - unfold bind in *. destruct (iteratee a r) as [[[]|e'] r'] eqn:E; [|done].
    by apply IH.
Qed.

(** Whatever way [addNodes] throws, it leaves the Realm as it was. *)
Lemma addNodes_throws_unchanged nodes r e r' :
  Node.addNodes nodes r = (Throw e, r') -> r' = r.
Proof.
  destruct nodes as [[|d batch]|]; [done | | done].
  rewrite addNodes_nonempty.
  destruct (transaction r) as [before|] eqn:Ht.
  { erewrite write_nested by done. by intros [= _ <-]. }
  set (callback := each _ _).
  assert (Hk : keeps_transaction callback)
    by (apply keeps_each; intros a; apply keeps_addNodes_iteratee).
  destruct (callback (begun r)) as [[a|e'] r1] eqn:E.
  - erewrite write_commits by done. done.
  - erewrite write_rolls_back by done. by intros [= _ <-].
Qed.

(** A [purge] that is rejected has deleted nothing. *)
Lemma purge_rejected_unchanged r e r' :
  purge r = (Rejected e, r') -> r' = r /\ e = AlreadyInTransaction.
Proof.
  unfold purge, promise_of.
  destruct (transaction r) as [before|] eqn:Ht.
  - erewrite write_nested by done. by intros [= <- <-].
  - by rewrite (write_commits realm.deleteAll r tt
                  (with_objects {| accounts := []; nodes := []; wallets := [] |}
                                (begun r)) Ht keeps_deleteAll eq_refl).
Qed.

(** C2.  From a Realm with no write scope open: whenever the callback of a
    write scope throws, at whatever point of its writes, [realm.write]
    throws that same error and the Realm is what it was before the scope, so
    every listing gives what it gave before.  In particular the batch of
    [addNodes] that has written some of its nodes and throws at the next
    throws that error and leaves the Realm as it was.  However [addNodes]
    comes to throw, and however [purge] comes to be rejected, the Realm and
    the listings of nodes and accounts are the ones from before the call. *)
Theorem write_scope_atomic (r : Realm) :
  idle r ->
  (forall (A : Type) (callback : M A) (e : Error) (r' : Realm),
      keeps_transaction callback ->
      callback (begun r) = (Throw e, r') ->
      realm.write callback r = (Throw e, r)) /\
  (forall (done rest : list NodeSchema.data) (failing : NodeSchema.data)
          (e : Error) (r1 r2 : Realm),
      let existingUrls := NodeSchema.url <$> nodes (objects r) in
      each done (Node.addNodes_iteratee existingUrls) (begun r) = (Ok tt, r1) ->
      Node.addNodes_iteratee existingUrls failing r1 = (Throw e, r2) ->
      Node.addNodes (Some (done ++ failing :: rest)) r = (Throw e, r)) /\
  (forall (q : Realm) nodes e q',
      Node.addNodes nodes q = (Throw e, q') ->
      q' = q /\ Node.getDataAsArray q' = Node.getDataAsArray q /\
      Account.data q' = Account.data q) /\
  (forall (q : Realm) e q',
      purge q = (Rejected e, q') ->
      q' = q /\ Node.getDataAsArray q' = Node.getDataAsArray q /\
      Account.data q' = Account.data q).
Proof.
  intros Hidle. split; [|split; [|split]].
  - intros A callback e r' Hk Hthrow. by eapply write_rolls_back.
  - intros done rest failing e r1 r2 existingUrls Hdone Hfail.
    assert (Hrun : Node.addNodes (Some (done ++ failing :: rest)) r
                   = realm.write
                       (each (done ++ failing :: rest)
                             (Node.addNodes_iteratee existingUrls)) r)
      by (by destruct done).
    rewrite Hrun. eapply write_rolls_back; [done | |].
    + apply keeps_each. intros a. apply keeps_addNodes_iteratee.
    + by eapply each_throws.
  - intros q nodes e q' Hthrow.
    by rewrite (addNodes_throws_unchanged _ _ _ _ Hthrow).
  - intros q e q' Hrejected.
    by destruct (purge_rejected_unchanged _ _ _ Hrejected) as [-> _].
Qed.

End WithSchemas.

(** ** The Wallet object *)

Section TableFacts.
Context {E K : Type} `{EqDecision K} (pk : E -> K).

(** The row a key finds is the row an assignment through the key changes. *)
Lemma modify_pk_found k f t e :
  lookup_pk pk k t = Some e ->
  modify_pk pk k f t = modify_pk pk k (fun _ => f e) t.
Proof.
  induction t as [|x t IH]; [done|].
  rewrite lookup_pk_cons. simpl. case_decide.
  - by intros [= ->].
  - intros Hl. by rewrite IH.
Qed.

Lemma modify_pk_twice k (e1 e2 : E) t :
  pk e1 = k ->
  modify_pk pk k (fun _ => e2) (modify_pk pk k (fun _ => e1) t)
  = modify_pk pk k (fun _ => e2) t.
Proof.
  intros He. induction t as [|x t IH]; [done|]. simpl.
  case_decide; simpl; [by rewrite decide_True | by rewrite decide_False, IH].
Qed.

Lemma lookup_modify_pk_found k e' t e :
  lookup_pk pk k t = Some e -> pk e' = k ->
  lookup_pk pk k (modify_pk pk k (fun _ => e') t) = Some e'.
Proof.
  intros Hl He. induction t as [|x t IH]; [done|].
  rewrite lookup_pk_cons in Hl. simpl. case_decide.
  - by rewrite lookup_pk_cons, decide_True.
  - rewrite lookup_pk_cons, decide_False by done. by apply IH.
Qed.

Lemma modify_pk_id k t e :
  lookup_pk pk k t = Some e -> modify_pk pk k (fun _ => e) t = t.
Proof.
  induction t as [|x t IH]; [done|].
  rewrite lookup_pk_cons. simpl. case_decide.
  - by intros [= ->].
  - intros Hl. by rewrite IH.
Qed.

End TableFacts.

Section WithSchemas.
Context `{Schemas}.

Lemma latestData_lookup r :
  Wallet.latestData r
  = (Ok (lookup_pk WalletSchema.version Wallet.version (wallets (objects r))), r).
Proof. done. Qed.

Lemma latestData_found r w :
  Wallet.latestData r = (Ok (Some w), r) ->
  lookup_pk WalletSchema.version Wallet.version (wallets (objects r)) = Some w.
Proof. rewrite latestData_lookup. by intros [= ->]. Qed.

Lemma latestData_absent r :
  Wallet.latestData r = (Ok None, r) ->
  lookup_pk WalletSchema.version Wallet.version (wallets (objects r)) = None.
Proof. rewrite latestData_lookup. by intros [= ->]. Qed.

Lemma latestSettings_found r w :
  lookup_pk WalletSchema.version Wallet.version (wallets (objects r)) = Some w ->
  Wallet.latestSettings r
  = (Ok {| realm.owner := Wallet.version; realm.current := WalletSchema.settings w |}, r).
Proof.
  intros Hl. unfold Wallet.latestSettings, Wallet.getObjectForId,
    realm.objectForPrimaryKey_Wallet, bind, realm.get. rewrite Hl. simpl.
  by destruct (lookup_pk_Some _ _ _ _ Hl) as [-> _].
Qed.

Lemma latestSettings_absent r :
  lookup_pk WalletSchema.version Wallet.version (wallets (objects r)) = None ->
  Wallet.latestSettings r = (Throw (TypeError "settings"), r).
Proof.
  intros Hl. unfold Wallet.latestSettings, Wallet.getObjectForId,
    realm.objectForPrimaryKey_Wallet, bind, realm.get. by rewrite Hl.
Qed.

Lemma lookup_replaced w' r w :
  lookup_pk WalletSchema.version Wallet.version (wallets (objects r)) = Some w ->
  WalletSchema.version w' = Wallet.version ->
  lookup_pk WalletSchema.version Wallet.version (wallets (objects (replaced w' r)))
  = Some w'.
Proof. intros Hl Hv. simpl. by eapply lookup_modify_pk_found. Qed.

Lemma replaced_twice w' w'' r :
  WalletSchema.version w' = Wallet.version ->
  replaced w'' (replaced w' r) = replaced w'' r.
Proof.
  intros Hv. unfold replaced, with_objects, set_wallets. simpl.
  by rewrite modify_pk_twice.
Qed.

(** One statement of a setter's callback: the getter, then the assignment
    of a value that may have been read from the settings just obtained. *)
Lemma assign_latest_setting k (v : realm.LiveSettings -> WalletSettingsSchema.type k)
    r before w :
  transaction r = Some before ->
  lookup_pk WalletSchema.version Wallet.version (wallets (objects r)) = Some w ->
  (s <- Wallet.latestSettings ;; realm.assign_setting s k (v s)) r
  = (Ok tt,
     replaced
       (with_setting k
          (v {| realm.owner := Wallet.version;
                realm.current := WalletSchema.settings w |}) w) r).
Proof.
  intros Ht Hl. rewrite (bind_ok _ _ _ _ _ (latestSettings_found _ _ Hl)).
  unfold realm.assign_setting, realm.in_write. rewrite Ht.
  unfold realm.put, replaced. simpl.
  by rewrite (modify_pk_found _ _ _ _ _ Hl).
Qed.

Lemma assign_latest_setting_const k (v : WalletSettingsSchema.type k) r before w :
  transaction r = Some before ->
  lookup_pk WalletSchema.version Wallet.version (wallets (objects r)) = Some w ->
  (s <- Wallet.latestSettings ;; realm.assign_setting s k v) r
  = (Ok tt, replaced (with_setting k v w) r).
Proof. apply (assign_latest_setting k (fun _ => v)). Qed.

Lemma assign_latest_notification t b r before w :
  transaction r = Some before ->
  lookup_pk WalletSchema.version Wallet.version (wallets (objects r)) = Some w ->
  (s <- Wallet.latestSettings ;; realm.assign_notification s t b) r
  = (Ok tt, replaced
              (WalletSchema.set_settings
                 (WalletSettingsSchema.set_notification t b (WalletSchema.settings w)) w)
              r).
Proof.
  intros Ht Hl. rewrite (bind_ok _ _ _ _ _ (latestSettings_found _ _ Hl)).
  unfold realm.assign_notification, realm.in_write. rewrite Ht.
  unfold realm.put, replaced. simpl.
  by rewrite (modify_pk_found _ _ _ _ _ Hl).
Qed.

Lemma assign_latest_data prop f r before w :
  transaction r = Some before ->
  lookup_pk WalletSchema.version Wallet.version (wallets (objects r)) = Some w ->
  (latest <- Wallet.latestData ;; realm.assign_Wallet latest prop f) r
  = (Ok tt, replaced (f w) r).
Proof.
  intros Ht Hl. rewrite (bind_ok _ _ _ _ _ (latestData_lookup r)), Hl.
  unfold realm.assign_Wallet, realm.in_write. rewrite Ht.
  unfold realm.put, replaced. simpl.
  destruct (lookup_pk_Some _ _ _ _ Hl) as [-> _].
  by rewrite (modify_pk_found _ _ _ _ _ Hl).
Qed.

Lemma assign_latest_setting_absent k
    (v : realm.LiveSettings -> WalletSettingsSchema.type k) r :
  lookup_pk WalletSchema.version Wallet.version (wallets (objects r)) = None ->
  (s <- Wallet.latestSettings ;; realm.assign_setting s k (v s)) r
  = (Throw (TypeError "settings"), r).
Proof. intros Hl. apply bind_throw. by apply latestSettings_absent. Qed.

Lemma assign_latest_setting_const_absent k (v : WalletSettingsSchema.type k) r :
  lookup_pk WalletSchema.version Wallet.version (wallets (objects r)) = None ->
  (s <- Wallet.latestSettings ;; realm.assign_setting s k v) r
  = (Throw (TypeError "settings"), r).
Proof. apply (assign_latest_setting_absent k (fun _ => v)). Qed.

Lemma assign_latest_notification_absent t b r :
  lookup_pk WalletSchema.version Wallet.version (wallets (objects r)) = None ->
  (s <- Wallet.latestSettings ;; realm.assign_notification s t b) r
  = (Throw (TypeError "settings"), r).
Proof. intros Hl. apply bind_throw. by apply latestSettings_absent. Qed.

Lemma assign_latest_data_absent prop f r :
  lookup_pk WalletSchema.version Wallet.version (wallets (objects r)) = None ->
  (latest <- Wallet.latestData ;; realm.assign_Wallet latest prop f) r
  = (Throw (TypeError prop), r).
Proof.
  intros Hl. by rewrite (bind_ok _ _ _ _ _ (latestData_lookup r)), Hl.
Qed.

Lemma keeps_assign_latest_setting k
    (v : realm.LiveSettings -> WalletSettingsSchema.type k) :
  keeps_transaction (s <- Wallet.latestSettings ;; realm.assign_setting s k (v s)).
Proof.
  apply keeps_bind; [apply keeps_latestSettings | intros s; apply keeps_assign_setting].
Qed.

Lemma keeps_assign_latest_notification t b :
  keeps_transaction (s <- Wallet.latestSettings ;; realm.assign_notification s t b).
Proof.
  apply keeps_bind;
    [apply keeps_latestSettings | intros s; apply keeps_assign_notification].
Qed.

Lemma keeps_assign_latest_data prop f :
  keeps_transaction (latest <- Wallet.latestData ;; realm.assign_Wallet latest prop f).
Proof.
  apply keeps_bind; [apply keeps_latestData | intros s; apply keeps_assign_Wallet].
Qed.

End WithSchemas.

Create HintDb wallet_setters.
#[global] Hint Unfold call
  Wallet.setOnboardingComplete
  Wallet.updateRemotePowSetting
  Wallet.updateAutoPromotionSetting
  Wallet.updateAutoNodeSwitchingSetting
  Wallet.updateLockScreenTimeout
  Wallet.updateLocale
  Wallet.updateMode
  Wallet.updateNode
  Wallet.updateLanguage
  Wallet.updateCurrencyData
  Wallet.updateTheme
  Wallet.setRandomlySelectedNode
  Wallet.update2FASetting
  Wallet.updateFingerPrintAuthenticationSetting
  Wallet.setVersions
  Wallet.acceptTerms
  Wallet.acceptPrivacyPolicy
  Wallet.toggleEmptyTransactionsDisplay
  Wallet.completeForcedPasswordUpdate
  Wallet.updateByteTritSweepSetting
  Wallet.updateTraySetting
  Wallet.updateNotificationsSetting
  Wallet.updateErrorLog
  Wallet.clearErrorLog : wallet_setters.

Section WithSchemas.
Context `{Schemas}.

(** What any setter does where the Wallet object of the current version is
    stored: its write scope commits, with that object changed as
    [row_after] says. *)
Lemma call_found (op : Setter) (r : Realm) (w : WalletSchema.object) :
  idle r ->
  lookup_pk WalletSchema.version Wallet.version (wallets (objects r)) = Some w ->
  call op r = (Ok tt, committed (replaced (row_after op w) (begun r))).
Proof.
  intros Hidle Hl.
  assert (Hb : lookup_pk WalletSchema.version Wallet.version
                 (wallets (objects (begun r))) = Some w) by done.
  assert (Hv : WalletSchema.version w = Wallet.version)
    by (by destruct (lookup_pk_Some _ _ _ _ Hl)).
  destruct op; autounfold with wallet_setters; simpl row_after;
    (eapply write_commits;
     [ done
     | repeat (apply keeps_bind; [|intros _]);
       first [ apply keeps_assign_latest_setting
             | apply keeps_assign_latest_notification
             | apply keeps_assign_latest_data ]
     | ]).
  all: try (first
    [ eapply (assign_latest_setting_const _ _ (begun r)); [reflexivity | exact Hb]
    | eapply (assign_latest_notification _ _ (begun r)); [reflexivity | exact Hb]
    | eapply (assign_latest_data _ _ (begun r)); [reflexivity | exact Hb] ]).
  - (* updateCurrencyData *)
    erewrite bind_ok
      by (eapply (assign_latest_setting_const _ _ (begun r)); [reflexivity | exact Hb]).
    erewrite bind_ok
      by (eapply assign_latest_setting_const; [reflexivity | by eapply lookup_replaced]).
    erewrite assign_latest_setting_const;
      [ | reflexivity
        | eapply lookup_replaced; [by eapply lookup_replaced | done] ].
    by rewrite !replaced_twice.
  - (* setRandomlySelectedNode *)
    erewrite bind_ok
      by (eapply (assign_latest_setting_const _ _ (begun r)); [reflexivity | exact Hb]).
    erewrite assign_latest_setting_const;
      [ | reflexivity | by eapply lookup_replaced ].
    by rewrite !replaced_twice.
  - (* setVersions *)
    erewrite bind_ok
      by (eapply (assign_latest_setting_const _ _ (begun r)); [reflexivity | exact Hb]).
    erewrite assign_latest_setting_const;
      [ | reflexivity | by eapply lookup_replaced ].
    by rewrite !replaced_twice.
  - (* toggleEmptyTransactionsDisplay *)
    by eapply (assign_latest_setting WalletSettingsSchema.hideEmptyTransactions
                 (fun s => negb (WalletSettingsSchema.props (realm.current s)
                                   WalletSettingsSchema.hideEmptyTransactions))
                 (begun r)).
  - (* updateErrorLog *)
    by eapply (assign_latest_data "errorLog"
                 (fun w0 => WalletSchema.set_errorLog
                              (WalletSchema.errorLog w0 ++ [payload]) w0)
                 (begun r)).
Qed.

(** What any setter does where that object is not stored. *)
Lemma call_absent (op : Setter) (r : Realm) :
  idle r ->
  lookup_pk WalletSchema.version Wallet.version (wallets (objects r)) = None ->
  exists prop, call op r = (Throw (TypeError prop), r).
Proof.
  intros Hidle Hl.
  assert (Hb : lookup_pk WalletSchema.version Wallet.version
                 (wallets (objects (begun r))) = None) by done.
  pose proof (assign_latest_setting_absent WalletSettingsSchema.hideEmptyTransactions
                (fun s => negb (WalletSettingsSchema.props (realm.current s)
                                  WalletSettingsSchema.hideEmptyTransactions))
                (begun r) Hb) as Htoggle.
  destruct op; autounfold with wallet_setters; eexists;
    (eapply write_rolls_back;
     [ done
     | repeat (apply keeps_bind; [|intros _]);
       first [ apply keeps_assign_latest_setting
             | apply keeps_assign_latest_notification
             | apply keeps_assign_latest_data ]
     | first
         [ exact Htoggle
         | eapply (assign_latest_setting_const_absent _ _ (begun r)); exact Hb
         | eapply (assign_latest_notification_absent _ _ (begun r)); exact Hb
         | eapply (assign_latest_data_absent _ _ (begun r)); exact Hb
         | apply bind_throw;
           eapply (assign_latest_setting_const_absent _ _ (begun r)); exact Hb ] ]).
Qed.

End WithSchemas.

Section WithSchemas.
Context `{Schemas}.

Lemma props_with_setting_ne k0 v w k :
  k0 <> k ->
  WalletSettingsSchema.props (WalletSchema.settings (with_setting k0 v w)) k
  = WalletSettingsSchema.props (WalletSchema.settings w) k.
Proof.
  intros Hne. unfold with_setting, WalletSettingsSchema.set. simpl.
  by destruct (decide (k0 = k)).
Qed.

Lemma notifications_with_setting k0 v w :
  WalletSettingsSchema.notifications (WalletSchema.settings (with_setting k0 v w))
  = WalletSettingsSchema.notifications (WalletSchema.settings w).
Proof. done. Qed.

Lemma version_row_after op w :
  WalletSchema.version (row_after op w) = WalletSchema.version w.
Proof. by destruct op. Qed.

(** The designated fields hold what the setter was given. *)
Lemma row_after_assigned op w : assigned op w (row_after op w).
Proof.
  destruct op; simpl; try done.
  apply lookup_insert_eq.
Qed.

(** No other field differs. *)
Lemma row_after_frame op w f :
  differs f w (row_after op w) -> f ∈ designated op.
Proof.
  intros Hd. destruct f as [| | |k|t].
  - unfold differs in Hd. by rewrite version_row_after in Hd.
  - destruct op; try done. left.
  - destruct op; try done; left.
  - unfold differs in Hd.
    destruct op; cbn [row_after designated] in *; try done;
      repeat match type of Hd with
      | context [with_setting ?k0 ?v ?w0] =>
          let Hne := fresh "Hne" in
          destruct (decide (k0 = k)) as [<-|Hne];
          [ by repeat constructor
          | rewrite (props_with_setting_ne k0 v w0 k Hne) in Hd ]
      end; congruence.
  - unfold differs in Hd.
    destruct op; cbn [row_after designated] in *;
      rewrite ?notifications_with_setting in Hd; try done.
    simpl in Hd. destruct (decide (Wallet.payload_type payload = t)) as [<-|Hne].
    + left.
    + by rewrite lookup_insert_ne in Hd.
Qed.

(** C8 (as amended).  Where the Wallet object of the current version is
    stored and no write scope is open, every setter of [Wallet] returns, in
    one write scope; it assigns its designated fields of that object and
    nothing else: one field for most setters, three for [updateCurrencyData],
    two for [setVersions] and for [setRandomlySelectedNode], one notification
    toggle for [updateNotificationsSetting].  The accounts, the nodes and
    the other Wallet objects are as before, and the designated fields hold
    the values given, as they are (the toggle holds the negation of what it
    held, the error log its old entries and then the new one). *)
Theorem setters_assign_designated_fields
    (op : Setter) (r : Realm) (w : WalletSchema.object) :
  idle r ->
  Wallet.latestData r = (Ok (Some w), r) ->
  exists r' w',
    call op r = (Ok tt, r') /\
    idle r' /\
    accounts (objects r') = accounts (objects r) /\
    nodes (objects r') = nodes (objects r) /\
    wallets (objects r')
    = modify_pk WalletSchema.version Wallet.version (fun _ => w')
                (wallets (objects r)) /\
    Wallet.latestData r' = (Ok (Some w'), r') /\
    assigned op w w' /\
    (forall f, differs f w w' -> f ∈ designated op).
Proof.
  intros Hidle Hfound. apply latestData_found in Hfound.
  exists (committed (replaced (row_after op w) (begun r))), (row_after op w).
  split; [by apply call_found|]. do 4 (split; [done|]). split; [|split].
  - rewrite latestData_lookup. do 2 f_equal.
    apply (lookup_replaced _ (begun r) w); [done|].
    rewrite version_row_after. by destruct (lookup_pk_Some _ _ _ _ Hfound).
  - apply row_after_assigned.
  - intros f. apply row_after_frame.
Qed.

(** C10.  Where the Wallet object of the current version is not stored, the
    [latestSettings] getter throws the error of reading [settings] off
    [undefined], and every setter called with no write scope open throws such
    an error too; the Realm is left as it was, with no object created. *)
Theorem setters_need_the_wallet_object (op : Setter) (r : Realm) :
  idle r ->
  Wallet.latestData r = (Ok None, r) ->
  Wallet.latestSettings r = (Throw (TypeError "settings"), r) /\
  exists prop, call op r = (Throw (TypeError prop), r).
Proof.
  intros Hidle Habsent. apply latestData_absent in Habsent. split.
  - by apply latestSettings_absent.
  - by apply call_absent.
Qed.

End WithSchemas.

Section WithSchemas.
Context `{Schemas}.

Lemma createIfNotExists_found r w :
  lookup_pk WalletSchema.version Wallet.version (wallets (objects r)) = Some w ->
  Wallet.createIfNotExists r = (Ok tt, r).
Proof.
  intros Hl. unfold Wallet.createIfNotExists.
  rewrite (bind_ok _ _ _ _ _ (latestData_lookup r)), Hl. done.
Qed.

Lemma createIfNotExists_absent r :
  idle r ->
  lookup_pk WalletSchema.version Wallet.version (wallets (objects r)) = None ->
  Wallet.createIfNotExists r
  = (Ok tt,
     committed
       (with_objects
          (set_wallets
             (wallets (objects r) ++ [WalletSchema.instantiate Wallet.initialData])
             (objects r))
          (begun r))).
Proof.
  intros Hidle Hl. unfold Wallet.createIfNotExists.
  rewrite (bind_ok _ _ _ _ _ (latestData_lookup r)), Hl. simpl.
  eapply write_commits; [done | apply keeps_create_Wallet |].
  unfold realm.create_Wallet, realm.in_write, bind, realm.get. simpl.
  change (WalletSchema.data_version Wallet.initialData) with Wallet.version.
  by rewrite Hl.
Qed.

(** C5.  From any Realm with unique primary keys and no write scope open,
    [createIfNotExists] returns, and called again it returns and changes
    nothing: after the first call as after the second there is exactly one
    Wallet object of the current version.  Where that object was not stored,
    the first call appends the object made from a plain object without a
    single settings property and with an empty notifications object, so that
    its settings and notifications are the schema's defaults and its error
    log is empty; where it was stored, the first call changes nothing
    either. *)
Theorem createIfNotExists_idempotent (r : Realm) :
  idle r ->
  NoDup (WalletSchema.version <$> wallets (objects r)) ->
  exists r1 w,
    Wallet.createIfNotExists r = (Ok tt, r1) /\
    Wallet.createIfNotExists r1 = (Ok tt, r1) /\
    idle r1 /\
    wallets_of_version Wallet.version (objects r1) = [w] /\
    accounts (objects r1) = accounts (objects r) /\
    nodes (objects r1) = nodes (objects r) /\
    (Wallet.latestData r = (Ok None, r) ->
     w = WalletSchema.instantiate Wallet.initialData /\
     wallets (objects r1) = wallets (objects r) ++ [w] /\
     (forall k, WalletSettingsSchema.data_props
                  (WalletSchema.data_settings Wallet.initialData) k = None) /\
     WalletSettingsSchema.data_notifications
       (WalletSchema.data_settings Wallet.initialData) = ∅ /\
     (forall k, WalletSettingsSchema.props (WalletSchema.settings w) k
                = settingsDefault k) /\
     WalletSettingsSchema.notifications (WalletSchema.settings w)
     = notificationsDefault /\
     WalletSchema.errorLog w = []) /\
    (forall w0, Wallet.latestData r = (Ok (Some w0), r) -> r1 = r /\ w = w0).
Proof.
  intros Hidle Huniq.
  destruct (lookup_pk WalletSchema.version Wallet.version (wallets (objects r)))
    as [w0|] eqn:Hl.
  - exists r, w0. rewrite (createIfNotExists_found _ _ Hl).
    do 3 (split; [done|]). split.
    { unfold wallets_of_version. by apply filter_key_unique. }
    do 2 (split; [done|]). split.
    + rewrite latestData_lookup, Hl. done.
    + rewrite latestData_lookup, Hl. by intros w1 [= ->].
  - set (w := WalletSchema.instantiate Wallet.initialData).
    eexists _, w. split; [by apply createIfNotExists_absent|]. split.
    { apply (createIfNotExists_found _ w). simpl.
      apply (lookup_pk_new WalletSchema.version _ w).
      by apply lookup_pk_None. }
    split; [done|]. split.
    { unfold wallets_of_version. simpl. rewrite filter_app.
      rewrite filter_key_absent by (by apply lookup_pk_None). done. }
    do 2 (split; [done|]). split.
    + intros _. do 5 (split; [done|]). split; [|done].
      simpl. by rewrite (left_id_L ∅ (∪)).
    + rewrite latestData_lookup, Hl. done.
Qed.

(** C6.  From any Realm with no write scope open, whatever accounts and
    nodes it holds, [reinitialise] resolves: [purge] resolves first, on a
    Realm without any object, and [initialise] then resolves from there.  The
    Realm is left without accounts and without nodes, and with one Wallet
    object, the one freshly made for the current version. *)
Theorem reinitialise_resets (r : Realm) :
  idle r ->
  exists r0 r',
    purge r = (Resolved, r0) /\
    objects r0 = {| accounts := []; nodes := []; wallets := [] |} /\
    initialise r0 = (Resolved, r') /\
    reinitialise r = (Resolved, r') /\
    idle r' /\
    accounts (objects r') = [] /\
    nodes (objects r') = [] /\
    wallets (objects r') = [WalletSchema.instantiate Wallet.initialData] /\
    WalletSchema.version (WalletSchema.instantiate Wallet.initialData)
    = SCHEMA_VERSION.
Proof.
  intros Hidle.
  set (r0 := {| objects := {| accounts := []; nodes := []; wallets := [] |};
                transaction := None |}).
  assert (Hpurge : purge r = (Resolved, r0)).
  { unfold purge, promise_of.
    by rewrite (write_commits realm.deleteAll r tt
                  (with_objects {| accounts := []; nodes := []; wallets := [] |}
                                (begun r)) Hidle keeps_deleteAll eq_refl). }
  assert (Hinit : initialise r0
    = (Resolved,
       {| objects := {| accounts := []; nodes := [];
                        wallets := [WalletSchema.instantiate Wallet.initialData] |};
          transaction := None |})).
  { unfold initialise, promise_of. by rewrite createIfNotExists_absent. }
  exists r0. eexists. split; [done|]. split; [done|]. split; [exact Hinit|].
  split; [|done].
  unfold reinitialise, then_. by rewrite Hpurge.
Qed.

(** C7.  In a Realm with no write scope open: [Account.create] of a plain
    object whose name is not yet stored, then [getObjectForId] with that name,
    gives an account with the name and the lists of the plain object;
    [addCustomNode] with a URL not yet stored, then [getObjectForId] with it,
    gives the node with that URL, marked custom, with the given [pow]; and
    [createIfNotExists] where no Wallet object of the current version is
    stored, then [getObjectForId] with that version, gives the object made
    from the plain object.  For a key that is not stored [getObjectForId]
    returns [undefined]; it never throws. *)
Theorem create_then_getObjectForId (r : Realm) :
  idle r ->
  (forall (d : AccountSchema.data) (k : string),
      AccountSchema.data_name d = Some k ->
      Account.getObjectForId k r = (Ok None, r) ->
      exists r' a,
        Account.create d r = (Ok tt, r') /\
        Account.getObjectForId k r' = (Ok (Some a), r') /\
        account_matches d a) /\
  (forall (url : string) (pow : bool),
      Node.getObjectForId url r = (Ok None, r) ->
      exists r',
        Node.addCustomNode url pow r = (Ok tt, r') /\
        Node.getObjectForId url r'
        = (Ok (Some {| NodeSchema.url := url; NodeSchema.custom := true;
                       NodeSchema.pow := pow |}), r')) /\
  (Wallet.getObjectForId Wallet.version r = (Ok None, r) ->
   exists r',
     Wallet.createIfNotExists r = (Ok tt, r') /\
     Wallet.getObjectForId Wallet.version r'
     = (Ok (Some (WalletSchema.instantiate Wallet.initialData)), r')) /\
  (forall id,
      (exists o, Account.getObjectForId id r = (Ok o, r)) /\
      (id ∉ AccountSchema.name <$> accounts (objects r) ->
       Account.getObjectForId id r = (Ok None, r))) /\
  (forall id,
      (exists o, Node.getObjectForId id r = (Ok o, r)) /\
      (id ∉ NodeSchema.url <$> nodes (objects r) ->
       Node.getObjectForId id r = (Ok None, r))) /\
  (forall id,
      (exists o, Wallet.getObjectForId id r = (Ok o, r)) /\
      (id ∉ WalletSchema.version <$> wallets (objects r) ->
       Wallet.getObjectForId id r = (Ok None, r))).
Proof.
  intros Hidle. split; [|split; [|split; [|split; [|split]]]].
  - intros d k Hname Habsent.
    rewrite getObjectForId_Account in Habsent. injection Habsent as Hl.
    exists (committed
              (with_objects
                 (set_accounts
                    (accounts (objects r) ++ [AccountSchema.instantiate k d])
                    (objects r))
                 (begun r))), (AccountSchema.instantiate k d).
    split; [|split].
    + eapply write_commits; [done | apply keeps_create_Account |].
      by eapply (create_Account_fresh d k (begun r)).
    + rewrite getObjectForId_Account. do 2 f_equal. simpl.
      apply (lookup_pk_new AccountSchema.name _ (AccountSchema.instantiate k d)).
      by apply lookup_pk_None.
    + split; [done|]. split; intros l Hd; simpl; by rewrite Hd.
  - intros url pow Habsent.
    rewrite getObjectForId_Node in Habsent. injection Habsent as Hl.
    set (n := {| NodeSchema.url := url; NodeSchema.custom := true;
                 NodeSchema.pow := pow |}).
    exists (committed
              (with_objects (set_nodes (nodes (objects r) ++ [n]) (objects r))
                            (begun r))).
    split.
    + eapply write_commits; [done | apply keeps_create_Node |].
      eapply (create_Node_fresh
                {| NodeSchema.data_url := url; NodeSchema.data_custom := Some true;
                   NodeSchema.data_pow := Some pow |} false (begun r)); [done|].
      by apply lookup_pk_None.
    + rewrite getObjectForId_Node. do 2 f_equal. simpl.
      apply (lookup_pk_new NodeSchema.url _ n). by apply lookup_pk_None.
  - intros Habsent. injection Habsent as Hl.
    eexists. split; [by apply createIfNotExists_absent|].
    unfold Wallet.getObjectForId, realm.objectForPrimaryKey_Wallet, realm.get.
    do 2 f_equal. simpl.
    apply (lookup_pk_new WalletSchema.version _
             (WalletSchema.instantiate Wallet.initialData)).
    by apply lookup_pk_None.
  - intros id. split; [by eexists|].
    intros Hout. rewrite getObjectForId_Account. do 2 f_equal.
    by apply lookup_pk_None.
  - intros id. split; [by eexists|].
    intros Hout. rewrite getObjectForId_Node. do 2 f_equal.
    by apply lookup_pk_None.
  - intros id. split; [by eexists|].
    intros Hout. unfold Wallet.getObjectForId, realm.objectForPrimaryKey_Wallet,
      realm.get. do 2 f_equal. by apply lookup_pk_None.
Qed.

End WithSchemas.

(** ** The properties on the sample data *)

Section OnSampleData.
#[local] Existing Instance Sample.schemas.

(** C3 as stated fails on the sample Realm, where node a is stored and is
    not custom: [addCustomNode] with a's URL does not return with a's fields
    replaced; it throws, and a is stored as before. *)
Lemma addCustomNode_existing_url_throws :
  let r := Sample.populated in
  "a" ∈ NodeSchema.url <$> nodes (objects r) /\
  Node.addCustomNode "a" true r = (Throw (DuplicatePrimaryKey "Node"), r) /\
  ~ (exists r', Node.addCustomNode "a" true r = (Ok tt, r')) /\
  Node.getObjectForId "a" r = (Ok (Some Sample.node_a), r) /\
  NodeSchema.custom Sample.node_a = false.
Proof.
  assert (Hrun : Node.addCustomNode "a" true Sample.populated
                 = (Throw (DuplicatePrimaryKey "Node"), Sample.populated))
    by (vm_compute; reflexivity).
  simpl. split; [left|]. split; [exact Hrun|]. split; [|done].
  intros [r' Hr']. rewrite Hrun in Hr'. discriminate.
Qed.

(** C4 as stated fails for a batch that names a URL not yet stored twice:
    from the Realm with nothing stored, [addNodes] of c and c again does not
    insert c; it throws at the second c, and no node is stored afterwards. *)
Lemma addNodes_repeated_new_url_throws :
  let r := Sample.blank in
  let batch := [Sample.plain_node "c" None; Sample.plain_node "c" None] in
  ("c" ∉ NodeSchema.url <$> nodes (objects r)) /\
  Node.addNodes (Some batch) r = (Throw (DuplicatePrimaryKey "Node"), r) /\
  ~ (exists r', Node.addNodes (Some batch) r = (Ok tt, r')) /\
  Node.getObjectForId "c" r = (Ok None, r).
Proof.
  assert (Hrun :
    Node.addNodes (Some [Sample.plain_node "c" None; Sample.plain_node "c" None])
                  Sample.blank
    = (Throw (DuplicatePrimaryKey "Node"), Sample.blank))
    by (vm_compute; reflexivity).
  simpl. split; [apply not_elem_of_nil|]. split; [exact Hrun|]. split; [|done].
  intros [r' Hr']. rewrite Hrun in Hr'. discriminate.
Qed.

(** C8 as stated fails for [setRandomlySelectedNode]: on the sample Realm
    it changes the node of the settings and the flag that the node was picked
    at random, so no single field is the only one it assigns. *)
Lemma setRandomlySelectedNode_assigns_two_fields :
  ~ single_field (SetRandomlySelectedNode "https://other.example:443").
Proof.
  intros [f Hf].
  set (op := SetRandomlySelectedNode "https://other.example:443").
  pose proof (call_found op Sample.populated Sample.wallet eq_refl eq_refl) as Hrun.
  set (r' := committed (replaced (row_after op Sample.wallet) (begun Sample.populated)))
    in Hrun.
  assert (Hd : forall g, differs g Sample.wallet (row_after op Sample.wallet) -> g = f).
  { apply (Hf Sample.populated r'); [done | done | exact Hrun | done]. }
  assert (H1 : FSetting WalletSettingsSchema.node = f)
    by (apply Hd; vm_compute; discriminate).
  assert (H2 : FSetting WalletSettingsSchema.hasRandomizedNode = f)
    by (apply Hd; vm_compute; discriminate).
  congruence.
Qed.

Lemma write_scope_atomic_witness :
  let a := Sample.plain_node "a" None in
  let b := Sample.plain_node "b" None in
  idle Sample.blank /\
  Node.addNodes (Some [a; b; a]) Sample.blank
  = (Throw (DuplicatePrimaryKey "Node"), Sample.blank) /\
  each [a; b] (Node.addNodes_iteratee []) (begun Sample.blank)
  = (Ok tt,
     {| objects := {| accounts := [];
                      nodes := [NodeSchema.instantiate a; NodeSchema.instantiate b];
                      wallets := [] |};
        transaction := Some (objects Sample.blank) |}).
Proof.
  intros a b. split; [reflexivity|]. split; [|vm_compute; reflexivity].
  set (inside :=
    {| objects := {| accounts := [];
                     nodes := [NodeSchema.instantiate a; NodeSchema.instantiate b];
                     wallets := [] |};
       transaction := Some (objects Sample.blank) |}).
  apply (proj1 (proj2 (write_scope_atomic Sample.blank eq_refl))
           [a; b] [] a (DuplicatePrimaryKey "Node") inside inside);
    vm_compute; reflexivity.
Defined.

Lemma addCustomNode_creates_or_refuses_witness :
  let r := Sample.populated in
  idle r /\
  NoDup (NodeSchema.url <$> nodes (objects r)) /\
  Node.addCustomNode "a" true r = (Throw (DuplicatePrimaryKey "Node"), r) /\
  (exists r',
      Node.addCustomNode "b" true r = (Ok tt, r') /\
      NodeSchema.url <$> nodes (objects r') = ["a"; "b"]).
Proof.
  intros r.
  assert (Hidle : idle r) by reflexivity.
  assert (Huniq : NoDup (NodeSchema.url <$> nodes (objects r)))
    by (apply NoDup_singleton).
  split; [exact Hidle|]. split; [exact Huniq|].
  split.
  - apply (proj1 (addCustomNode_creates_or_refuses r "a" true Hidle Huniq)).
    vm_compute. left.
  - destruct (proj1 (proj2 (addCustomNode_creates_or_refuses r "b" true Hidle Huniq)))
      as (r' & Hrun & _ & Hobjects).
    + vm_compute. intros Hin. apply list_elem_of_singleton in Hin. discriminate.
    + exists r'. split; [exact Hrun|]. rewrite Hobjects. reflexivity.
Defined.

Lemma addNodes_upserts_batch_witness :
  let r := Sample.populated in
  let batch := [Sample.plain_node "a" (Some true); Sample.plain_node "c" None] in
  idle r /\
  NoDup (new_urls (nodes (objects r)) batch) /\
  (exists r',
      Node.addNodes (Some batch) r = (Ok tt, r') /\
      NodeSchema.url <$> nodes (objects r') = ["a"; "c"] /\
      Node.getObjectForId "a" r'
      = (Ok (Some {| NodeSchema.url := "a"; NodeSchema.custom := true;
                     NodeSchema.pow := false |}), r')).
Proof.
  intros r batch.
  assert (Hidle : idle r) by reflexivity.
  assert (Hnew : NoDup (new_urls (nodes (objects r)) batch))
    by (vm_compute; apply NoDup_singleton).
  split; [exact Hidle|]. split; [exact Hnew|].
  destruct (proj1 (addNodes_upserts_batch r batch Hidle Hnew))
    as (r' & Hrun & _ & _ & Hobjects & Hurls & _).
  exists r'. split; [exact Hrun|]. split.
  - rewrite Hurls. vm_compute. reflexivity.
  - rewrite getObjectForId_Node, Hobjects. reflexivity.
Defined.

Lemma createIfNotExists_idempotent_witness :
  let r := Sample.walletless in
  idle r /\
  NoDup (WalletSchema.version <$> wallets (objects r)) /\
  (exists r1,
      Wallet.createIfNotExists r = (Ok tt, r1) /\
      Wallet.createIfNotExists r1 = (Ok tt, r1) /\
      wallets_of_version Wallet.version (objects r1) = [Sample.wallet]).
Proof.
  intros r.
  assert (Hidle : idle r) by reflexivity.
  assert (Huniq : NoDup (WalletSchema.version <$> wallets (objects r)))
    by (apply NoDup_nil_2).
  split; [exact Hidle|]. split; [exact Huniq|].
  destruct (createIfNotExists_idempotent r Hidle Huniq)
    as (r1 & w & Hfirst & Hsecond & _ & Hone & _ & _ & Hfresh & _).
  exists r1. split; [exact Hfirst|]. split; [exact Hsecond|].
  rewrite Hone. f_equal. apply Hfresh. reflexivity.
Defined.

Lemma reinitialise_resets_witness :
  let r := Sample.populated in
  idle r /\
  (exists r',
      reinitialise r = (Resolved, r') /\
      accounts (objects r') = [] /\
      nodes (objects r') = [] /\
      wallets (objects r') = [Sample.wallet]).
Proof.
  intros r. split; [reflexivity|].
  destruct (reinitialise_resets r eq_refl)
    as (r0 & r' & _ & _ & _ & Hrun & _ & Hacc & Hnodes & Hwallets & _).
  exists r'. repeat split; assumption.
Defined.

Lemma create_then_getObjectForId_witness :
  let r := Sample.populated in
  let bob := {| AccountSchema.data_name := Some "bob";
                AccountSchema.data_addressData := Some ["ADDRESS9C"];
                AccountSchema.data_transactions := Some [];
                AccountSchema.data_accountName := None |} in
  idle r /\
  Account.getObjectForId "bob" r = (Ok None, r) /\
  (exists r' a,
      Account.create bob r = (Ok tt, r') /\
      Account.getObjectForId "bob" r' = (Ok (Some a), r') /\
      AccountSchema.name a = "bob" /\
      AccountSchema.addressData a = ["ADDRESS9C"] /\
      AccountSchema.transactions a = []).
Proof.
  intros r bob. split; [reflexivity|]. split; [reflexivity|].
  destruct (proj1 (create_then_getObjectForId r eq_refl) bob "bob" eq_refl eq_refl)
    as (r' & a & Hcreate & Hget & Hname & Haddr & Htx).
  exists r', a. split; [exact Hcreate|]. split; [exact Hget|].
  split; [|split].
  - simpl in Hname. congruence.
  - apply Haddr. reflexivity.
  - apply Htx. reflexivity.
Defined.

Lemma setters_assign_designated_fields_witness :
  let r := Sample.populated in
  idle r /\
  Wallet.latestData r = (Ok (Some Sample.wallet), r) /\
  (exists r' w',
      call (UpdateLocale "de") r = (Ok tt, r') /\
      Wallet.latestData r' = (Ok (Some w'), r') /\
      WalletSettingsSchema.props (WalletSchema.settings w') WalletSettingsSchema.locale
      = "de" /\
      WalletSettingsSchema.props (WalletSchema.settings w') WalletSettingsSchema.themeName
      = "Default" /\
      accounts (objects r') = [Sample.alice]).
Proof.
  intros r. split; [reflexivity|]. split; [reflexivity|].
  destruct (setters_assign_designated_fields (UpdateLocale "de") r Sample.wallet
              eq_refl eq_refl)
    as (r' & w' & Hrun & _ & Hacc & _ & _ & Hlatest & Hassigned & Hframe).
  exists r', w'. split; [exact Hrun|]. split; [exact Hlatest|].
  split; [exact Hassigned|]. split; [|exact Hacc].
  destruct (decide (WalletSettingsSchema.props (WalletSchema.settings w')
                      WalletSettingsSchema.themeName = "Default")) as [Heq|Hne];
    [exact Heq|].
  specialize (Hframe (FSetting WalletSettingsSchema.themeName) Hne).
  apply list_elem_of_singleton in Hframe. discriminate.
Defined.

Lemma addNodes_nothing_to_add_witness :
  let r := begun Sample.blank in
  transaction r = Some (objects Sample.blank) /\
  Node.addNodes (Some []) r = (Ok tt, r) /\
  Node.addNodes (Some [Sample.plain_node "a" None]) r
  = (Throw AlreadyInTransaction, r).
Proof.
  intros r. split; [reflexivity|].
  destruct (addNodes_nothing_to_add r) as (_ & _ & _ & _ & Hopen).
  destruct (Hopen (objects Sample.blank) (Sample.plain_node "a" None) [] eq_refl)
    as (_ & Hempty & Hbatch).
  split; [exact Hempty | exact Hbatch].
Defined.

Lemma setters_need_the_wallet_object_witness :
  let r := Sample.walletless in
  idle r /\
  Wallet.latestData r = (Ok None, r) /\
  Wallet.latestSettings r = (Throw (TypeError "settings"), r) /\
  (exists prop, call (UpdateTheme "Dark") r = (Throw (TypeError prop), r)).
Proof.
  intros r. split; [reflexivity|]. split; [reflexivity|].
  apply (setters_need_the_wallet_object (UpdateTheme "Dark") r eq_refl eq_refl).
Defined.

End OnSampleData.

(** ** More of the storage module: deleting, updating, listing *)

Section TableFacts.
Context {E K : Type} `{EqDecision K} (pk : E -> K).

Lemma remove_pk_absent k t : k ∉ pk <$> t -> remove_pk pk k t = t.
Proof.
  induction t as [|x t IH]; [done|].
  rewrite fmap_cons, not_elem_of_cons. intros [Hne Hout]. cbn [remove_pk modify_pk app].
  case_decide; [congruence | by rewrite IH].
Qed.

Lemma remove_pk_new k t e :
  pk e = k -> k ∉ pk <$> t -> remove_pk pk k (t ++ [e]) = t.
Proof.
  intros He. induction t as [|x t IH].
  - intros _. cbn [remove_pk app]. by rewrite decide_True.
  - rewrite fmap_cons, not_elem_of_cons. intros [Hne Hout]. cbn [remove_pk modify_pk app].
    case_decide; [congruence | by rewrite IH].
Qed.

Lemma remove_pk_keys_sub k t u : u ∈ pk <$> remove_pk pk k t -> u ∈ pk <$> t.
Proof.
  induction t as [|x t IH]; [done|]. cbn [remove_pk modify_pk].
  case_decide; rewrite !fmap_cons, ?elem_of_cons; [tauto|].
  intros [->|Hu]; [by left | right; auto].
Qed.

Lemma remove_pk_unique k t :
  NoDup (pk <$> t) -> NoDup (pk <$> remove_pk pk k t).
Proof.
  induction t as [|x t IH]; [done|].
  rewrite fmap_cons, NoDup_cons. intros [Hx Hnd]. cbn [remove_pk modify_pk].
  case_decide; [done|]. rewrite fmap_cons, NoDup_cons. split; [|auto].
  intros Hin. by apply Hx, (remove_pk_keys_sub k).
Qed.

(** With unique keys the removed key is gone, and every other key finds
    what it found. *)
Lemma lookup_remove_pk k t :
  NoDup (pk <$> t) -> lookup_pk pk k (remove_pk pk k t) = None.
Proof.
  induction t as [|x t IH]; [done|].
  rewrite fmap_cons, NoDup_cons. intros [Hx Hnd]. cbn [remove_pk modify_pk].
  case_decide as Hk.
  - apply lookup_pk_None. by rewrite <- Hk.
  - rewrite lookup_pk_cons, decide_False by done. auto.
Qed.

Lemma lookup_remove_pk_ne k k' t :
  k <> k' -> lookup_pk pk k' (remove_pk pk k t) = lookup_pk pk k' t.
Proof.
  intros Hne. induction t as [|x t IH]; [done|]. cbn [remove_pk modify_pk].
  case_decide as Hk; rewrite !lookup_pk_cons.
  - by rewrite decide_False by congruence.
  - by rewrite IH.
Qed.

Lemma lookup_modify_pk_ne k k' f t :
  k <> k' -> (forall e, pk (f e) = pk e) ->
  lookup_pk pk k' (modify_pk pk k f t) = lookup_pk pk k' t.
Proof.
  intros Hne Hf. induction t as [|x t IH]; [done|]. cbn [remove_pk modify_pk].
  case_decide as Hx; rewrite !lookup_pk_cons; [|by rewrite IH].
  rewrite !decide_False; [done | congruence | rewrite Hf; congruence].
Qed.

Lemma lookup_modify_pk k f t :
  (forall e, pk (f e) = pk e) ->
  lookup_pk pk k (modify_pk pk k f t) = f <$> lookup_pk pk k t.
Proof.
  intros Hf. induction t as [|x t IH]; [done|]. cbn [remove_pk modify_pk].
  case_decide as Hx; rewrite !lookup_pk_cons.
  - rewrite !decide_True by (by rewrite ?Hf). done.
  - by rewrite !decide_False.
Qed.

Lemma modify_pk_fixed k f t e :
  lookup_pk pk k t = Some e -> f e = e -> modify_pk pk k f t = t.
Proof.
  intros Hl Hf. rewrite (modify_pk_found _ _ _ _ _ Hl), Hf.
  by apply modify_pk_id.
Qed.

Lemma lookup_pk_app_ne k t e :
  pk e <> k -> lookup_pk pk k (t ++ [e]) = lookup_pk pk k t.
Proof.
  intros Hne. rewrite lookup_pk_app.
  destruct (lookup_pk pk k t); [done|].
  by rewrite lookup_pk_cons, decide_False.
Qed.

Lemma unique_keys_app t e :
  NoDup (pk <$> t) -> pk e ∉ pk <$> t -> NoDup (pk <$> t ++ [e]).
Proof.
  intros Hnd Hout. rewrite fmap_app. apply NoDup_app. split; [done|]. split.
  - intros u Hu Hu'. apply list_elem_of_singleton in Hu'. by subst.
  - apply NoDup_singleton.
Qed.

(** With unique keys, a key finds an object exactly when the object is in
    the table under that key. *)
Lemma lookup_pk_elem k t e :
  NoDup (pk <$> t) -> lookup_pk pk k t = Some e <-> e ∈ t /\ pk e = k.
Proof.
  intros Hnd. split.
  { intros Hl. by destruct (lookup_pk_Some _ _ _ _ Hl). }
  intros [Hin <-]. induction t as [|x t IH]; [by apply elem_of_nil in Hin|].
  rewrite fmap_cons, NoDup_cons in Hnd. destruct Hnd as [Hx Hnd].
  rewrite lookup_pk_cons. case_decide as Hk.
  - apply elem_of_cons in Hin as [->|Hin]; [done|].
    destruct Hx. rewrite Hk. by apply list_elem_of_fmap_2.
  - apply elem_of_cons in Hin as [->|Hin]; [done | auto].
Qed.

End TableFacts.

Section WithSchemas.
Context `{Schemas}.

(** How a write scope ends, whatever the Realm it starts from. *)
Lemma write_cases {A} (callback : M A) r :
  keeps_transaction callback ->
  (exists before, transaction r = Some before /\
     realm.write callback r = (Throw AlreadyInTransaction, r)) \/
  (idle r /\ exists a r1, callback (begun r) = (Ok a, r1) /\
     realm.write callback r = (Ok tt, committed r1)) \/
  (idle r /\ exists e r1, callback (begun r) = (Throw e, r1) /\
     realm.write callback r = (Throw e, r)).
Proof.
  intros Hk. destruct (transaction r) as [before|] eqn:Ht.
  { left. exists before. split; [done|]. by eapply write_nested. }
  right. destruct (callback (begun r)) as [[a|e] r1] eqn:E.
  - left. split; [done|]. exists a, r1. split; [done|]. by eapply write_commits.
  - right. split; [done|]. exists e, r1. split; [done|]. by eapply write_rolls_back.
Qed.

Lemma maintains_ret P {A} (a : A) : maintains P (ret a).
Proof. by intros r x r' HP [= <- <-]. Qed.

Lemma maintains_throw P {A} e : maintains P (@throw _ A e).
Proof. by intros r x r' HP [= <- <-]. Qed.

Lemma maintains_get P {A} (f : Store -> A) : maintains P (realm.get f).
Proof. by intros r x r' HP [= <- <-]. Qed.

Lemma maintains_bind P {A B} (c : M A) (k : A -> M B) :
  maintains P c -> (forall a, maintains P (k a)) -> maintains P (bind c k).
Proof.
  intros Hc Hk r x r' HP. unfold bind.
  destruct (c r) as [[a|e] r1] eqn:E.
  - intros Hrun. eapply Hk; [|exact Hrun]. eapply Hc; eauto.
  - intros [= <- <-]. eapply Hc; eauto.
Qed.

Lemma maintains_in_write P {A} (c : M A) :
  maintains P c -> maintains P (realm.in_write c).
Proof.
  intros Hc r x r' HP. unfold realm.in_write.
  destruct (transaction r); [by apply Hc|]. by intros [= <- <-].
Qed.

Lemma maintains_each P {A} (l : list A) (f : A -> M unit) :
  (forall a, maintains P (f a)) -> maintains P (each l f).
Proof.
  intros Hf. induction l as [|a l IH]; simpl.
  - apply maintains_ret.
  - apply maintains_bind; auto.
Qed.

(** A write scope keeps what its callback keeps. *)
Lemma maintains_write P {A} (callback : M A) :
  keeps_transaction callback -> maintains P callback ->
  maintains P (realm.write callback).
Proof.
  intros Hk Hc r x r' HP Hrun.
  destruct (write_cases callback r Hk)
    as [(b & _ & E) | [(_ & a & r1 & Hcb & E) | (_ & e & r1 & _ & E)]];
    rewrite E in Hrun; injection Hrun as <- <-; try done.
  simpl. by eapply (Hc (begun r)).
Qed.

Lemma maintains_create_Account d u : maintains unique_keys (realm.create_Account d u).
Proof.
  apply maintains_in_write. destruct (AccountSchema.data_name d) as [k|];
    [|apply maintains_throw].
  intros r x r' (Ha & Hn & Hw). unfold bind, realm.get.
  destruct (lookup_pk AccountSchema.name k (accounts (objects r))) eqn:Hl.
  - destruct u; intros [= <- <-]; [|done]. split; [|done]. simpl.
    by rewrite modify_pk_keys.
  - intros [= <- <-]. split; [|done]. simpl.
    apply (unique_keys_app AccountSchema.name _ (AccountSchema.instantiate k d));
      [done | by apply lookup_pk_None].
Qed.

Lemma maintains_create_Node d u : maintains unique_keys (realm.create_Node d u).
Proof.
  apply maintains_in_write.
  intros r x r' (Ha & Hn & Hw). unfold bind, realm.get.
  destruct (lookup_pk NodeSchema.url (NodeSchema.data_url d) (nodes (objects r)))
    eqn:Hl.
  - destruct u; intros [= <- <-]; [|done]. split; [done|]. split; [|done]. simpl.
    by rewrite modify_pk_keys.
  - intros [= <- <-]. split; [done|]. split; [|done]. simpl.
    apply (unique_keys_app NodeSchema.url _ (NodeSchema.instantiate d));
      [done | by apply lookup_pk_None].
Qed.

Lemma maintains_create_Wallet d : maintains unique_keys (realm.create_Wallet d).
Proof.
  apply maintains_in_write.
  intros r x r' (Ha & Hn & Hw). unfold bind, realm.get.
  destruct (lookup_pk WalletSchema.version (WalletSchema.data_version d)
              (wallets (objects r))) eqn:Hl.
  - by intros [= <- <-].
  - intros [= <- <-]. do 2 (split; [done|]). simpl.
    apply (unique_keys_app WalletSchema.version _ (WalletSchema.instantiate d));
      [done | by apply lookup_pk_None].
Qed.

Lemma maintains_delete_Account o : maintains unique_keys (realm.delete_Account o).
Proof.
  apply maintains_in_write. destruct o as [a|]; [|apply maintains_throw].
  intros r x r' (Ha & Hn & Hw) [= <- <-]. split; [|done]. simpl.
  by apply remove_pk_unique.
Qed.

Lemma maintains_delete_Node o : maintains unique_keys (realm.delete_Node o).
Proof.
  apply maintains_in_write. destruct o as [a|]; [|apply maintains_throw].
  intros r x r' (Ha & Hn & Hw) [= <- <-]. split; [done|]. split; [|done]. simpl.
  by apply remove_pk_unique.
Qed.

Lemma maintains_deleteAll : maintains unique_keys realm.deleteAll.
Proof.
  apply maintains_in_write. intros r x r' _ [= <- <-].
  repeat split; apply NoDup_nil_2.
Qed.

End WithSchemas.

Section WithSchemas.
Context `{Schemas}.

Lemma committed_begun r : idle r -> committed (with_objects (objects r) (begun r)) = r.
Proof. destruct r as [s t]. unfold idle. simpl. by intros ->. Qed.

Lemma set_accounts_same s : set_accounts (accounts s) s = s.
Proof. by destruct s. Qed.

Lemma from_option_Some_None {A} (o : option A) : from_option Some None o = o.
Proof. by destruct o. Qed.

(** [delete] inside and outside its write scope. *)
Lemma Account_delete_found r name a :
  idle r ->
  lookup_pk AccountSchema.name name (accounts (objects r)) = Some a ->
  Account.delete name r
  = (Ok tt,
     committed
       (with_objects
          (set_accounts (remove_pk AccountSchema.name name (accounts (objects r)))
                        (objects r))
          (begun r))).
Proof.
  intros Hidle Hl. eapply write_commits; [done | |].
  { apply keeps_bind; [apply keeps_get | intros o; apply keeps_delete_Account]. }
  rewrite (bind_ok _ _ _ _ _ (getObjectForId_Account name (begun r))).
  simpl. rewrite Hl. unfold realm.delete_Account, realm.in_write, realm.put. simpl.
  by destruct (lookup_pk_Some _ _ _ _ Hl) as [-> _].
Qed.

Lemma Account_delete_absent r name :
  idle r ->
  lookup_pk AccountSchema.name name (accounts (objects r)) = None ->
  Account.delete name r = (Throw InvalidDeleteArgument, r).
Proof.
  intros Hidle Hl. eapply write_rolls_back; [done | |].
  { apply keeps_bind; [apply keeps_get | intros o; apply keeps_delete_Account]. }
  rewrite (bind_ok _ _ _ _ _ (getObjectForId_Account name (begun r))).
  simpl. by rewrite Hl.
Qed.

Lemma Node_delete_found r url n :
  idle r ->
  lookup_pk NodeSchema.url url (nodes (objects r)) = Some n ->
  Node.delete url r
  = (Ok tt,
     committed
       (with_objects
          (set_nodes (remove_pk NodeSchema.url url (nodes (objects r))) (objects r))
          (begun r))).
Proof.
  intros Hidle Hl. unfold Node.delete.
  rewrite (bind_ok _ _ _ _ _ (getObjectForId_Node url r)), Hl.
  eapply write_commits; [done | apply keeps_delete_Node |].
  unfold realm.delete_Node, realm.in_write, realm.put. simpl.
  by destruct (lookup_pk_Some _ _ _ _ Hl) as [-> _].
Qed.

Lemma Node_delete_absent r url :
  idle r ->
  lookup_pk NodeSchema.url url (nodes (objects r)) = None ->
  Node.delete url r = (Throw InvalidDeleteArgument, r).
Proof.
  intros Hidle Hl. unfold Node.delete.
  rewrite (bind_ok _ _ _ _ _ (getObjectForId_Node url r)), Hl.
  by eapply write_rolls_back; [done | apply keeps_delete_Node |].
Qed.

(** X1.  [Account.delete] of a stored name, with no write scope open and
    names unique, returns; afterwards the name finds nothing, every other
    name finds what it found, and nodes and Wallet objects are as before.
    For a name that is not stored it throws, since [realm.delete] is handed
    [undefined], and the Realm is left as it was. *)
Theorem Account_delete_removes (r : Realm) (name : string) :
  idle r ->
  NoDup (AccountSchema.name <$> accounts (objects r)) ->
  (forall a,
      Account.getObjectForId name r = (Ok (Some a), r) ->
      exists r',
        Account.delete name r = (Ok tt, r') /\
        idle r' /\
        Account.getObjectForId name r' = (Ok None, r') /\
        (forall other, other <> name ->
           fst (Account.getObjectForId other r') = fst (Account.getObjectForId other r)) /\
        S (length (accounts (objects r'))) = length (accounts (objects r)) /\
        nodes (objects r') = nodes (objects r) /\
        wallets (objects r') = wallets (objects r)) /\
  (Account.getObjectForId name r = (Ok None, r) ->
   Account.delete name r = (Throw InvalidDeleteArgument, r)).
Proof.
  intros Hidle Huniq. split.
  - intros a Hfound. rewrite getObjectForId_Account in Hfound.
    injection Hfound as Hl. eexists. split; [by eapply Account_delete_found|].
    split; [done|]. split; [|split; [|split; [|done]]].
    + rewrite getObjectForId_Account. do 2 f_equal. simpl.
      by apply lookup_remove_pk.
    + intros other Hne. rewrite !getObjectForId_Account. simpl. f_equal.
      by apply lookup_remove_pk_ne.
    + simpl. clear Huniq. induction (accounts (objects r)) as [|x t IH]; [done|].
      rewrite lookup_pk_cons in Hl. simpl. case_decide; [done|].
      simpl. f_equal. by apply IH.
  - intros Habsent. rewrite getObjectForId_Account in Habsent.
    injection Habsent as Hl. by apply Account_delete_absent.
Qed.

(** X2.  [Node.delete] of a stored URL, with no write scope open and URLs
    unique, returns; afterwards the URL finds nothing, every other URL finds
    what it found, and accounts and Wallet objects are as before.  For a
    URL that is not stored it throws and leaves the Realm as it was. *)
Theorem Node_delete_removes (r : Realm) (url : string) :
  idle r ->
  NoDup (NodeSchema.url <$> nodes (objects r)) ->
  (forall n,
      Node.getObjectForId url r = (Ok (Some n), r) ->
      exists r',
        Node.delete url r = (Ok tt, r') /\
        idle r' /\
        Node.getObjectForId url r' = (Ok None, r') /\
        (forall other, other <> url ->
           fst (Node.getObjectForId other r') = fst (Node.getObjectForId other r)) /\
        NodeSchema.url <$> nodes (objects r')
        = filter (fun u => u <> url) (NodeSchema.url <$> nodes (objects r)) /\
        accounts (objects r') = accounts (objects r) /\
        wallets (objects r') = wallets (objects r)) /\
  (Node.getObjectForId url r = (Ok None, r) ->
   Node.delete url r = (Throw InvalidDeleteArgument, r)).
Proof.
  intros Hidle Huniq. split.
  - intros n Hfound. rewrite getObjectForId_Node in Hfound.
    injection Hfound as Hl. eexists. split; [by eapply Node_delete_found|].
    split; [done|]. split; [|split; [|split; [|done]]].
    + rewrite getObjectForId_Node. do 2 f_equal. simpl.
      by apply lookup_remove_pk.
    + intros other Hne. rewrite !getObjectForId_Node. simpl. f_equal.
      by apply lookup_remove_pk_ne.
    + simpl. clear Hl. induction (nodes (objects r)) as [|x t IH]; [done|].
      rewrite fmap_cons in Huniq |- *. apply NoDup_cons in Huniq as [Hx Hnd].
      cbn [remove_pk]. rewrite filter_cons. case_decide as Hk.
      * rewrite decide_False by (by intros ?; congruence).
        symmetry. rewrite <- Hk. clear IH Hk.
        induction (NodeSchema.url <$> t) as [|u us IHu]; [done|].
        apply not_elem_of_cons in Hx as [Hne Hx].
        rewrite filter_cons, decide_True by congruence. f_equal.
        apply IHu; [done | by apply NoDup_cons in Hnd as [_ ?]].
      * rewrite decide_True by done. rewrite fmap_cons. f_equal. by apply IH.
  - intros Habsent. rewrite getObjectForId_Node in Habsent.
    injection Habsent as Hl. by apply Node_delete_absent.
Qed.

(** X3.  [Account.create] never overwrites: with a name that is stored it
    throws the duplicate-key error, without a name it throws for the missing
    key, and either way the Realm is left as it was. *)
Theorem Account_create_refuses (r : Realm) (d : AccountSchema.data) :
  idle r ->
  (forall k a,
      AccountSchema.data_name d = Some k ->
      Account.getObjectForId k r = (Ok (Some a), r) ->
      Account.create d r = (Throw (DuplicatePrimaryKey "Account"), r)) /\
  (AccountSchema.data_name d = None ->
   Account.create d r = (Throw (MissingPropertyValue "Account.name"), r)).
Proof.
  intros Hidle. split.
  - intros k a Hname Hfound. rewrite getObjectForId_Account in Hfound.
    injection Hfound as Hl.
    eapply write_rolls_back; [done | apply keeps_create_Account |].
    by eapply (create_Account_duplicate d k a (begun r)).
  - intros Hname.
    eapply write_rolls_back; [done | apply keeps_create_Account |].
    by eapply (create_Account_no_key d false (begun r)).
Qed.


(** X8.  Adding a custom node under a URL that is not stored and deleting
    it again leaves the Realm exactly as it was before the two calls. *)
Theorem addCustomNode_delete_round_trip (r : Realm) (url : string) (pow : bool) :
  idle r ->
  Node.getObjectForId url r = (Ok None, r) ->
  exists r1,
    Node.addCustomNode url pow r = (Ok tt, r1) /\
    Node.delete url r1 = (Ok tt, r).
Proof.
  intros Hidle Habsent. rewrite getObjectForId_Node in Habsent.
  injection Habsent as Hl.
  set (d := {| NodeSchema.data_url := url; NodeSchema.data_custom := Some true;
               NodeSchema.data_pow := Some pow |}).
  eexists. split.
  - eapply write_commits; [done | apply keeps_create_Node |].
    eapply (create_Node_fresh d false (begun r)); [done|].
    by apply lookup_pk_None.
  - erewrite Node_delete_found; [|done|].
    + simpl. rewrite (remove_pk_new NodeSchema.url url _ (NodeSchema.instantiate d) eq_refl)
        by (by apply lookup_pk_None).
      unfold set_nodes. simpl. destruct r as [[] ?]. unfold idle in Hidle.
      simpl in *. by subst.
    + simpl. apply (lookup_pk_new NodeSchema.url _ (NodeSchema.instantiate d)).
      by apply lookup_pk_None.
Qed.

End WithSchemas.

Section WithSchemas.
Context `{Schemas}.

(** The table [Account.update] leaves: the object under the key takes the
    lists given, or a fresh object is appended. *)
Lemma Account_update_runs r name d :
  idle r ->
  let k := default name (AccountSchema.data_name d) in
  let t := accounts (objects r) in
  Account.update name d r
  = (Ok tt,
     committed
       (with_objects
          (set_accounts
             (match lookup_pk AccountSchema.name k t with
              | Some _ => modify_pk AccountSchema.name k (AccountSchema.assign_props d) t
              | None => t ++ [AccountSchema.instantiate k d]
              end)
             (objects r))
          (begun r))).
Proof.
  intros Hidle k t. eapply write_commits; [done | apply keeps_create_Account |].
  unfold realm.create_Account, realm.in_write, bind, realm.get, realm.put.
  subst k t. destruct d as [[n|] [ad|] [tx|] an]; simpl;
    by destruct (lookup_pk AccountSchema.name _ (accounts (objects r))).
Qed.

Lemma assign_props_twice d a :
  AccountSchema.assign_props d (AccountSchema.assign_props d a)
  = AccountSchema.assign_props d a.
Proof.
  unfold AccountSchema.assign_props. simpl.
  by destruct (AccountSchema.data_addressData d), (AccountSchema.data_transactions d).
Qed.

Lemma assign_props_instantiate d k :
  AccountSchema.assign_props d (AccountSchema.instantiate k d)
  = AccountSchema.instantiate k d.
Proof.
  unfold AccountSchema.assign_props, AccountSchema.instantiate. simpl.
  by destruct (AccountSchema.data_addressData d), (AccountSchema.data_transactions d).
Qed.

(** X4.  [Account.update] is an upsert under the name the plain object
    carries or, when it carries none, under the name given.  With no write
    scope open it returns.  An account stored under that name keeps its place
    and takes the lists the plain object gives, keeping each list it does not
    give; with nothing stored under the name, a fresh account is appended,
    with an empty list for each list not given.  Every other name finds what
    it found, names stay unique, and nodes and Wallet objects are as
    before. *)
Theorem Account_update_upserts (r : Realm) (name : string) (d : AccountSchema.data) :
  idle r ->
  let k := default name (AccountSchema.data_name d) in
  exists r' a',
    Account.update name d r = (Ok tt, r') /\
    idle r' /\
    Account.getObjectForId k r' = (Ok (Some a'), r') /\
    AccountSchema.name a' = k /\
    (forall l, AccountSchema.data_addressData d = Some l ->
               AccountSchema.addressData a' = l) /\
    (forall l, AccountSchema.data_transactions d = Some l ->
               AccountSchema.transactions a' = l) /\
    (forall a, Account.getObjectForId k r = (Ok (Some a), r) ->
       (AccountSchema.data_addressData d = None ->
        AccountSchema.addressData a' = AccountSchema.addressData a) /\
       (AccountSchema.data_transactions d = None ->
        AccountSchema.transactions a' = AccountSchema.transactions a) /\
       AccountSchema.name <$> accounts (objects r')
       = AccountSchema.name <$> accounts (objects r)) /\
    (Account.getObjectForId k r = (Ok None, r) ->
     accounts (objects r') = accounts (objects r) ++ [a'] /\
     (AccountSchema.data_addressData d = None -> AccountSchema.addressData a' = []) /\
     (AccountSchema.data_transactions d = None -> AccountSchema.transactions a' = [])) /\
    (forall other, other <> k ->
       fst (Account.getObjectForId other r') = fst (Account.getObjectForId other r)) /\
    (NoDup (AccountSchema.name <$> accounts (objects r)) ->
     NoDup (AccountSchema.name <$> accounts (objects r'))) /\
    nodes (objects r') = nodes (objects r) /\
    wallets (objects r') = wallets (objects r).
Proof.
  intros Hidle k. pose proof (Account_update_runs r name d Hidle) as Hrun.
  fold k in Hrun. simpl in Hrun.
  destruct (lookup_pk AccountSchema.name k (accounts (objects r))) as [a|] eqn:Hl.
  - exists (committed
              (with_objects
                 (set_accounts
                    (modify_pk AccountSchema.name k (AccountSchema.assign_props d)
                               (accounts (objects r)))
                    (objects r))
                 (begun r))), (AccountSchema.assign_props d a).
    split; [exact Hrun|]. split; [done|]. split.
    { rewrite getObjectForId_Account. do 2 f_equal. simpl.
      rewrite lookup_modify_pk by done. by rewrite Hl. }
    split; [by destruct (lookup_pk_Some _ _ _ _ Hl)|].
    split; [by intros l Hd; simpl; rewrite Hd|].
    split; [by intros l Hd; simpl; rewrite Hd|].
    split.
    { intros a0. rewrite getObjectForId_Account, Hl. intros [= <-].
      split; [by intros Hd; simpl; rewrite Hd|].
      split; [by intros Hd; simpl; rewrite Hd|].
      simpl. by rewrite modify_pk_keys. }
    split; [by rewrite getObjectForId_Account, Hl|].
    split.
    { intros other Hne. rewrite !getObjectForId_Account. simpl. f_equal.
      by apply lookup_modify_pk_ne. }
    split; [|done]. simpl. by rewrite modify_pk_keys.
  - exists (committed
              (with_objects
                 (set_accounts (accounts (objects r) ++ [AccountSchema.instantiate k d])
                               (objects r))
                 (begun r))), (AccountSchema.instantiate k d).
    split; [exact Hrun|]. split; [done|]. split.
    { rewrite getObjectForId_Account. do 2 f_equal. simpl.
      apply (lookup_pk_new AccountSchema.name _ (AccountSchema.instantiate k d)).
      by apply lookup_pk_None. }
    split; [done|].
    split; [by intros l Hd; simpl; rewrite Hd|].
    split; [by intros l Hd; simpl; rewrite Hd|].
    split; [by intros a0; rewrite getObjectForId_Account, Hl|].
    split.
    { intros _. split; [done|]. split; intros Hd; simpl; by rewrite Hd. }
    split.
    { intros other Hne. rewrite !getObjectForId_Account. simpl. f_equal.
      by apply lookup_pk_app_ne. }
    split; [|done]. simpl. intros Hnd.
    apply (unique_keys_app AccountSchema.name _ (AccountSchema.instantiate k d));
      [done | by apply lookup_pk_None].
Qed.

(** X5.  A name carried by the plain object wins over the name given to
    [Account.update]: the call is the call under the carried name, and the
    account stored under the name given, if it is another one, is not
    touched. *)
Theorem Account_update_name_in_data_wins
    (r : Realm) (name other : string) (d : AccountSchema.data) :
  AccountSchema.data_name d = Some other ->
  Account.update name d r = Account.update other d r /\
  (other <> name ->
   forall x r', Account.update name d r = (x, r') ->
     fst (Account.getObjectForId name r') = fst (Account.getObjectForId name r)).
Proof.
  intros Hname. split.
  { unfold Account.update. do 2 f_equal.
    unfold AccountSchema.assign. simpl. unfold AccountSchema.assign1. simpl.
    by rewrite Hname. }
  intros Hne x r' Hrun.
  destruct (write_cases
              (realm.create_Account
                 (AccountSchema.assign AccountSchema.empty
                    [ {| AccountSchema.data_name := Some name;
                         AccountSchema.data_addressData := None;
                         AccountSchema.data_transactions := None;
                         AccountSchema.data_accountName := None |}; d ]) true)
              r (keeps_create_Account _ _))
    as [(b & Ht & E) | [(Hidle & a & r1 & _ & _) | (_ & e & r1 & _ & E)]].
  - unfold Account.update in Hrun. rewrite E in Hrun. by injection Hrun as <- <-.
  - rewrite (Account_update_runs r name d Hidle) in Hrun. injection Hrun as <- <-.
    rewrite !getObjectForId_Account, Hname. simpl.
    destruct (lookup_pk AccountSchema.name other (accounts (objects r))); f_equal.
    + by apply lookup_modify_pk_ne.
    + by apply lookup_pk_app_ne.
  - unfold Account.update in Hrun. rewrite E in Hrun. by injection Hrun as <- <-.
Qed.

(** X6.  [Account.update] is idempotent: with no write scope open, the same
    call made again returns and leaves the Realm as the first call left
    it. *)
Theorem Account_update_idempotent (r : Realm) (name : string) (d : AccountSchema.data) :
  idle r ->
  exists r1,
    Account.update name d r = (Ok tt, r1) /\
    Account.update name d r1 = (Ok tt, r1).
Proof.
  intros Hidle. eexists. split; [by apply Account_update_runs|].
  set (k := default name (AccountSchema.data_name d)).
  set (r1 := committed _).
  assert (Hidle1 : idle r1) by done.
  rewrite (Account_update_runs r1 name d Hidle1). fold k. f_equal.
  assert (Hfixed : exists a,
    lookup_pk AccountSchema.name k (accounts (objects r1)) = Some a /\
    AccountSchema.assign_props d a = a).
  { subst r1. simpl.
    destruct (lookup_pk AccountSchema.name k (accounts (objects r))) as [a|] eqn:Hl.
    - exists (AccountSchema.assign_props d a). split.
      + rewrite lookup_modify_pk by done. by rewrite Hl.
      + apply assign_props_twice.
    - exists (AccountSchema.instantiate k d). split.
      + apply (lookup_pk_new AccountSchema.name _ (AccountSchema.instantiate k d)).
        by apply lookup_pk_None.
      + apply assign_props_instantiate. }
  destruct Hfixed as (a & Hl1 & Hfix). rewrite Hl1.
  rewrite (modify_pk_fixed _ _ _ _ _ Hl1 Hfix), set_accounts_same.
  by apply committed_begun.
Qed.

End WithSchemas.

(** ** Every call, and calls in sequence *)

Section WithSchemas.
Context `{Schemas}.

Lemma maintains_settings_of P o : maintains P (realm.settings_of o).
Proof. destruct o; simpl; [apply maintains_ret | apply maintains_throw]. Qed.

Lemma maintains_latestSettings P : maintains P Wallet.latestSettings.
Proof.
  apply maintains_bind; [apply maintains_get | intros o; apply maintains_settings_of].
Qed.

Lemma maintains_modify_wallets k f :
  (forall w, WalletSchema.version (f w) = WalletSchema.version w) ->
  maintains unique_keys
    (realm.in_write (realm.put (fun s =>
       set_wallets (modify_pk WalletSchema.version k f (wallets s)) s))).
Proof.
  intros Hf. apply maintains_in_write.
  intros r x r' (Ha & Hn & Hw) [= <- <-]. do 2 (split; [done|]). simpl.
  by rewrite modify_pk_keys.
Qed.

Lemma maintains_assign_Wallet o prop f :
  (forall w, WalletSchema.version (f w) = WalletSchema.version w) ->
  maintains unique_keys (realm.assign_Wallet o prop f).
Proof.
  intros Hf. destruct o; simpl;
    [by apply maintains_modify_wallets | apply maintains_throw].
Qed.

Lemma maintains_assign_setting s k v :
  maintains unique_keys (realm.assign_setting s k v).
Proof. by apply maintains_modify_wallets. Qed.

Lemma maintains_assign_notification s t b :
  maintains unique_keys (realm.assign_notification s t b).
Proof. by apply maintains_modify_wallets. Qed.

Lemma tidy_ret : tidy (ret tt).
Proof. by intros r x r' [= <- <-]. Qed.

(** A write scope over a callback made of the store's own operations. *)
Lemma tidy_write {A} (callback : M A) :
  keeps_transaction callback -> maintains unique_keys callback ->
  tidy (realm.write callback).
Proof.
  intros Hk Hm r x r' Hrun. split; [|split].
  - intros Hu. by eapply (maintains_write unique_keys callback Hk Hm r).
  - intros Hidle.
    destruct (write_cases callback r Hk)
      as [(b & _ & E) | [(_ & a & r1 & _ & E) | (_ & e & r1 & _ & E)]];
      rewrite E in Hrun; by injection Hrun as <- <-.
  - intros e ->.
    destruct (write_cases callback r Hk)
      as [(b & _ & E) | [(_ & a & r1 & _ & E) | (_ & e' & r1 & _ & E)]];
      rewrite E in Hrun; by injection Hrun.
Qed.

(** A call that first reads and then does something tidy. *)
Lemma tidy_after_read {A} (read : Store -> A) (k : A -> M unit) :
  (forall a, tidy (k a)) -> tidy (bind (realm.get read) k).
Proof. intros Hk r x r' Hrun. exact (Hk (read (objects r)) r x r' Hrun). Qed.

Lemma await_promise_of (c : M unit) r : await (promise_of c) r = c r.
Proof. unfold await, promise_of. by destruct (c r) as [[[]|e] r']. Qed.

Lemma tidy_createIfNotExists : tidy Wallet.createIfNotExists.
Proof.
  apply tidy_after_read. intros [w|]; simpl; [apply tidy_ret|].
  apply tidy_write; [apply keeps_create_Wallet | apply maintains_create_Wallet].
Qed.

Lemma tidy_purge : tidy (await purge).
Proof.
  intros r x r'. unfold purge. rewrite await_promise_of.
  apply tidy_write; [apply keeps_deleteAll | apply maintains_deleteAll].
Qed.

Lemma tidy_initialise : tidy (await initialise).
Proof.
  intros r x r'. unfold initialise. rewrite await_promise_of.
  apply tidy_createIfNotExists.
Qed.

Lemma reinitialise_idle r :
  idle r ->
  reinitialise r
  = (Resolved,
     {| objects := {| accounts := []; nodes := [];
                      wallets := [WalletSchema.instantiate Wallet.initialData] |};
        transaction := None |}).
Proof.
  intros Hidle. unfold reinitialise, then_, purge, promise_of.
  rewrite (write_commits realm.deleteAll r tt
             (with_objects {| accounts := []; nodes := []; wallets := [] |} (begun r))
             Hidle keeps_deleteAll eq_refl).
  unfold initialise, promise_of. by rewrite createIfNotExists_absent.
Qed.

Lemma tidy_reinitialise : tidy (await reinitialise).
Proof.
  intros r x r' Hrun. unfold await in Hrun.
  destruct (transaction r) as [before|] eqn:Ht.
  - unfold reinitialise, then_, purge, promise_of in Hrun.
    erewrite write_nested in Hrun by done. by injection Hrun as <- <-.
  - rewrite (reinitialise_idle r Ht) in Hrun. injection Hrun as <- <-.
    split; [|done]. intros _. split; [apply NoDup_nil_2|].
    split; [apply NoDup_nil_2 | apply NoDup_singleton].
Qed.

Lemma maintains_assign_latest_setting k
    (v : realm.LiveSettings -> WalletSettingsSchema.type k) :
  maintains unique_keys
    (s <- Wallet.latestSettings ;; realm.assign_setting s k (v s)).
Proof.
  apply maintains_bind;
    [apply maintains_latestSettings | intros s; apply maintains_assign_setting].
Qed.

Lemma maintains_assign_latest_notification t b :
  maintains unique_keys
    (s <- Wallet.latestSettings ;; realm.assign_notification s t b).
Proof.
  apply maintains_bind;
    [apply maintains_latestSettings | intros s; apply maintains_assign_notification].
Qed.

Lemma maintains_assign_latest_data prop f :
  (forall w, WalletSchema.version (f w) = WalletSchema.version w) ->
  maintains unique_keys
    (latest <- Wallet.latestData ;; realm.assign_Wallet latest prop f).
Proof.
  intros Hf. apply maintains_bind;
    [apply maintains_get | intros o; by apply maintains_assign_Wallet].
Qed.

Lemma tidy_call op : tidy (call op).
Proof.
  destruct op; autounfold with wallet_setters;
    (apply tidy_write;
     [ repeat (apply keeps_bind; [|intros _]);
       first [ apply keeps_assign_latest_setting
             | apply keeps_assign_latest_notification
             | apply keeps_assign_latest_data ]
     | repeat (apply maintains_bind; [|intros _]);
       first [ apply (maintains_assign_latest_setting _ (fun _ => _))
             | apply maintains_assign_latest_setting
             | apply maintains_assign_latest_notification
             | by apply maintains_assign_latest_data ] ]).
Qed.

Lemma tidy_run op : tidy (run op).
Proof.
  destruct op; simpl.
  - apply tidy_write; [apply keeps_create_Account | apply maintains_create_Account].
  - apply tidy_write; [apply keeps_create_Account | apply maintains_create_Account].
  - apply tidy_write.
    + apply keeps_bind; [apply keeps_get | intros o; apply keeps_delete_Account].
    + apply maintains_bind; [apply maintains_get | intros o; apply maintains_delete_Account].
  - apply tidy_after_read. intros o. apply tidy_write.
    + apply keeps_migrate_callback.
    + apply maintains_bind;
        [apply maintains_create_Account | intros _; apply maintains_delete_Account].
  - apply tidy_write; [apply keeps_create_Node | apply maintains_create_Node].
  - apply tidy_after_read. intros o.
    apply tidy_write; [apply keeps_delete_Node | apply maintains_delete_Node].
  - match goal with
    | |- tidy (Node.addNodes ?given) => destruct given as [[|d batch]|]
    end; [apply tidy_ret | | apply tidy_ret].
    apply tidy_after_read. intros stored. apply tidy_write.
    + apply keeps_each. intros a. apply keeps_addNodes_iteratee.
    + apply maintains_each. intros a. unfold Node.addNodes_iteratee.
      destruct (Node.includes _ _); apply maintains_create_Node.
  - apply tidy_call.
  - apply tidy_createIfNotExists.
  - apply tidy_purge.
  - apply tidy_initialise.
  - apply tidy_reinitialise.
Qed.

(** X9.  From a Realm with unique primary keys and no write scope open, any
    sequence of calls of the storage module, whatever their arguments and
    whichever of them throw, ends in a Realm with unique primary keys and no
    write scope open. *)
Theorem calls_keep_keys_unique (ops : list Operation) (r : Realm) :
  idle r ->
  unique_keys (objects r) ->
  idle (run_all ops r) /\ unique_keys (objects (run_all ops r)).
Proof.
  revert r. induction ops as [|op ops IH]; intros r Hidle Hu; [done|].
  simpl. destruct (run op r) as [x r'] eqn:Hrun.
  destruct (tidy_run op r x r' Hrun) as (Hu' & Hidle' & _).
  apply IH; simpl; auto.
Qed.

(** X10.  A call of the storage module that throws, or whose promise is
    rejected, has changed nothing: the Realm is exactly the one from before
    the call.  In particular a rejected [reinitialise] has not purged. *)
Theorem failed_call_changes_nothing (op : Operation) (r r' : Realm) (e : Error) :
  run op r = (Throw e, r') -> r' = r.
Proof.
  intros Hrun. destruct (tidy_run op r _ r' Hrun) as (_ & _ & Hfail).
  by apply (Hfail e).
Qed.

End WithSchemas.

(** ** The Wallet object over several calls *)

Section WithSchemas.
Context `{Schemas}.

(** The Realm a setter leaves is again one where the Wallet object of the
    current version is found. *)
Lemma call_found_next (op : Setter) (r : Realm) (w : WalletSchema.object) :
  idle r ->
  lookup_pk WalletSchema.version Wallet.version (wallets (objects r)) = Some w ->
  let r1 := committed (replaced (row_after op w) (begun r)) in
  call op r = (Ok tt, r1) /\
  idle r1 /\
  lookup_pk WalletSchema.version Wallet.version (wallets (objects r1))
  = Some (row_after op w) /\
  accounts (objects r1) = accounts (objects r) /\
  nodes (objects r1) = nodes (objects r).
Proof.
  intros Hidle Hl r1. split; [by apply call_found|]. split; [done|].
  split; [|done].
  apply (lookup_replaced _ (begun r) w); [done|].
  rewrite version_row_after. by destruct (lookup_pk_Some _ _ _ _ Hl).
Qed.

Lemma call_nested (op : Setter) (r : Realm) before :
  transaction r = Some before ->
  call op r = (Throw AlreadyInTransaction, r).
Proof.
  intros Ht. destruct op; autounfold with wallet_setters; by eapply write_nested.
Qed.

(** X11.  After [initialise], from any Realm with no write scope open, the
    Wallet object of the current version is stored: [latestSettings] returns,
    and every setter of [Wallet], whatever its argument, returns. *)
Theorem initialise_enables_setters (r : Realm) (op : Setter) :
  idle r ->
  exists r1 w s r2,
    initialise r = (Resolved, r1) /\
    idle r1 /\
    Wallet.latestData r1 = (Ok (Some w), r1) /\
    WalletSchema.version w = SCHEMA_VERSION /\
    Wallet.latestSettings r1 = (Ok s, r1) /\
    realm.current s = WalletSchema.settings w /\
    call op r1 = (Ok tt, r2).
Proof.
  intros Hidle.
  assert (Hinit : exists r1 w,
    Wallet.createIfNotExists r = (Ok tt, r1) /\ idle r1 /\
    lookup_pk WalletSchema.version Wallet.version (wallets (objects r1)) = Some w).
  { destruct (lookup_pk WalletSchema.version Wallet.version (wallets (objects r)))
      as [w|] eqn:Hl.
    - exists r, w. split; [by eapply createIfNotExists_found | done].
    - eexists _, (WalletSchema.instantiate Wallet.initialData).
      split; [by apply createIfNotExists_absent|]. split; [done|]. simpl.
      apply (lookup_pk_new WalletSchema.version _
               (WalletSchema.instantiate Wallet.initialData)).
      by apply lookup_pk_None. }
  destruct Hinit as (r1 & w & Hrun & Hidle1 & Hl1).
  exists r1, w. do 2 eexists.
  split; [by unfold initialise, promise_of; rewrite Hrun|].
  split; [done|]. split; [by rewrite latestData_lookup, Hl1|].
  split; [by destruct (lookup_pk_Some _ _ _ _ Hl1)|].
  split; [by apply latestSettings_found|]. split; [done|].
  by apply call_found.
Qed.

(** X12.  After [purge], from any Realm with no write scope open, nothing
    is stored: both listings are empty, no Wallet object is found, and until
    the storage is initialised again [latestSettings] and every setter of
    [Wallet] throw.  A second [purge] resolves and changes nothing. *)
Theorem purge_disables_setters (r : Realm) (op : Setter) :
  idle r ->
  exists r0,
    purge r = (Resolved, r0) /\
    idle r0 /\
    Account.getDataAsArray r0 = (Ok [], r0) /\
    Node.getDataAsArray r0 = (Ok [], r0) /\
    Wallet.data r0 = (Ok [], r0) /\
    Wallet.latestData r0 = (Ok None, r0) /\
    Wallet.latestSettings r0 = (Throw (TypeError "settings"), r0) /\
    (exists prop, call op r0 = (Throw (TypeError prop), r0)) /\
    purge r0 = (Resolved, r0).
Proof.
  intros Hidle.
  set (r0 := {| objects := {| accounts := []; nodes := []; wallets := [] |};
                transaction := None |}).
  assert (Hpurge : forall q, idle q -> purge q = (Resolved, r0)).
  { intros q Hq. unfold purge, promise_of.
    by rewrite (write_commits realm.deleteAll q tt
                  (with_objects {| accounts := []; nodes := []; wallets := [] |}
                                (begun q)) Hq keeps_deleteAll eq_refl). }
  exists r0. split; [by apply Hpurge|]. do 5 (split; [done|]).
  split; [by apply latestSettings_absent|].
  split; [by apply call_absent|]. by apply Hpurge.
Qed.

Lemma agree_on_refl f w : agree_on f w w.
Proof. by destruct f. Qed.

Lemma agree_on_sym f w w' : agree_on f w w' -> agree_on f w' w.
Proof. by destruct f. Qed.

Lemma agree_on_trans f w1 w2 w3 :
  agree_on f w1 w2 -> agree_on f w2 w3 -> agree_on f w1 w3.
Proof. destruct f; simpl; congruence. Qed.

(** X13.  [toggleEmptyTransactionsDisplay] called twice, where the Wallet
    object of the current version is stored and no write scope is open,
    returns both times and leaves every field of that object, down to single
    settings and notification toggles, as it was, and accounts and nodes as
    they were. *)
Theorem toggle_twice_restores (r : Realm) (w : WalletSchema.object) :
  idle r ->
  Wallet.latestData r = (Ok (Some w), r) ->
  exists r1 r2 w1 w2,
    Wallet.toggleEmptyTransactionsDisplay r = (Ok tt, r1) /\
    Wallet.latestData r1 = (Ok (Some w1), r1) /\
    WalletSettingsSchema.props (WalletSchema.settings w1)
      WalletSettingsSchema.hideEmptyTransactions
    <> WalletSettingsSchema.props (WalletSchema.settings w)
         WalletSettingsSchema.hideEmptyTransactions /\
    Wallet.toggleEmptyTransactionsDisplay r1 = (Ok tt, r2) /\
    Wallet.latestData r2 = (Ok (Some w2), r2) /\
    (forall f, agree_on f w w2) /\
    accounts (objects r2) = accounts (objects r) /\
    nodes (objects r2) = nodes (objects r).
Proof.
  intros Hidle Hfound. apply latestData_found in Hfound.
  destruct (call_found_next ToggleEmptyTransactionsDisplay r w Hidle Hfound)
    as (Hrun1 & Hidle1 & Hl1 & Hacc1 & Hnodes1).
  destruct (call_found_next ToggleEmptyTransactionsDisplay _ _ Hidle1 Hl1)
    as (Hrun2 & Hidle2 & Hl2 & Hacc2 & Hnodes2).
  do 2 eexists.
  exists (row_after ToggleEmptyTransactionsDisplay w),
         (row_after ToggleEmptyTransactionsDisplay
            (row_after ToggleEmptyTransactionsDisplay w)).
  split; [exact Hrun1|]. split; [by rewrite latestData_lookup, Hl1|].
  split; [simpl; by destruct (WalletSettingsSchema.props _ _)|].
  split; [exact Hrun2|]. split; [by rewrite latestData_lookup, Hl2|].
  split; [|split; congruence].
  intros [| | |k|t]; try done. simpl.
  destruct (decide (WalletSettingsSchema.hideEmptyTransactions = k)) as [<-|Hne].
  - simpl. apply negb_involutive.
  - unfold WalletSettingsSchema.set. simpl.
    by destruct (decide (WalletSettingsSchema.hideEmptyTransactions = k)).
Qed.

(** The error log over a run of [updateErrorLog] calls. *)
Lemma each_updateErrorLog (payloads : list string) :
  forall r w,
    idle r ->
    lookup_pk WalletSchema.version Wallet.version (wallets (objects r)) = Some w ->
    exists r1 w1,
      each payloads Wallet.updateErrorLog r = (Ok tt, r1) /\
      idle r1 /\
      lookup_pk WalletSchema.version Wallet.version (wallets (objects r1)) = Some w1 /\
      WalletSchema.errorLog w1 = WalletSchema.errorLog w ++ payloads /\
      WalletSchema.settings w1 = WalletSchema.settings w /\
      WalletSchema.version w1 = WalletSchema.version w /\
      WalletSchema.onboardingComplete w1 = WalletSchema.onboardingComplete w /\
      accounts (objects r1) = accounts (objects r) /\
      nodes (objects r1) = nodes (objects r).
Proof.
  induction payloads as [|p payloads IH]; intros r w Hidle Hl.
  { exists r, w. simpl. by rewrite app_nil_r. }
  destruct (call_found_next (UpdateErrorLog p) r w Hidle Hl)
    as (Hrun & Hidle1 & Hl1 & Hacc1 & Hnodes1).
  destruct (IH _ _ Hidle1 Hl1)
    as (r1 & w1 & Hrest & Hidle' & Hl' & Hlog & Hset & Hver & Honb & Hacc & Hnodes).
  exists r1, w1. split.
  { cbn [each]. by rewrite (bind_ok _ _ _ _ _ Hrun). }
  split; [done|]. split; [done|]. split.
  { rewrite Hlog. simpl. by rewrite <- app_assoc. }
  simpl in Hset, Hver, Honb, Hacc, Hnodes. repeat split; congruence.
Qed.

(** X14.  [updateErrorLog] called for a run of messages, where the Wallet
    object of the current version is stored and no write scope is open,
    leaves the error log with its old entries followed by the messages in the
    order of the calls, and nothing else of the object changed;
    [clearErrorLog] then leaves the log empty, and again nothing else
    changed. *)
Theorem errorLog_appends_in_order
    (payloads : list string) (r : Realm) (w : WalletSchema.object) :
  idle r ->
  Wallet.latestData r = (Ok (Some w), r) ->
  exists r1 w1 r2 w2,
    each payloads Wallet.updateErrorLog r = (Ok tt, r1) /\
    Wallet.latestData r1 = (Ok (Some w1), r1) /\
    WalletSchema.errorLog w1 = WalletSchema.errorLog w ++ payloads /\
    (forall f, f <> FErrorLog -> agree_on f w w1) /\
    Wallet.clearErrorLog r1 = (Ok tt, r2) /\
    Wallet.latestData r2 = (Ok (Some w2), r2) /\
    WalletSchema.errorLog w2 = [] /\
    (forall f, f <> FErrorLog -> agree_on f w w2).
Proof.
  intros Hidle Hfound. apply latestData_found in Hfound.
  destruct (each_updateErrorLog payloads r w Hidle Hfound)
    as (r1 & w1 & Hrun & Hidle1 & Hl1 & Hlog & Hset & Hver & Honb & _ & _).
  destruct (call_found_next ClearErrorLog r1 w1 Hidle1 Hl1)
    as (Hclear & _ & Hl2 & _ & _).
  exists r1, w1. eexists. exists (row_after ClearErrorLog w1).
  split; [exact Hrun|]. split; [by rewrite latestData_lookup, Hl1|].
  split; [exact Hlog|]. split.
  { intros [| | |k|t] Hne; simpl; congruence. }
  split; [exact Hclear|]. split; [by rewrite latestData_lookup, Hl2|].
  split; [done|].
  intros [| | |k|t] Hne; simpl; congruence.
Qed.

End WithSchemas.

Section WithSchemas.
Context `{Schemas}.

Lemma agree_or_differs f w w' : agree_on f w w' \/ differs f w w'.
Proof.
  destruct f as [| | |k|t]; simpl.
  - destruct (decide (WalletSchema.version w' = WalletSchema.version w)); tauto.
  - destruct (decide (WalletSchema.onboardingComplete w'
                      = WalletSchema.onboardingComplete w)); tauto.
  - destruct (decide (WalletSchema.errorLog w' = WalletSchema.errorLog w)); tauto.
  - generalize (WalletSettingsSchema.props (WalletSchema.settings w') k),
               (WalletSettingsSchema.props (WalletSchema.settings w) k).
    destruct k; simpl; intros x y; destruct (decide (x = y)); tauto.
  - destruct (decide
      (WalletSettingsSchema.notifications (WalletSchema.settings w') !! t
       = WalletSettingsSchema.notifications (WalletSchema.settings w) !! t)); tauto.
Qed.

(** A setter leaves the fields that are not its designated ones alone. *)
Lemma agree_frame op w f : f ∉ designated op -> agree_on f w (row_after op w).
Proof.
  intros Hout. destruct (agree_or_differs f w (row_after op w)) as [?|Hd]; [done|].
  by apply row_after_frame in Hd.
Qed.

(** What a setter leaves in a field depends on that field only. *)
Lemma row_after_local op f w1 w2 :
  agree_on f w1 w2 -> agree_on f (row_after op w1) (row_after op w2).
Proof.
  intros Hag. destruct f as [| | |k|t].
  - simpl. by rewrite !version_row_after.
  - destruct op; simpl in *; done.
  - destruct op; simpl in *; congruence.
  - unfold agree_on in *.
    destruct op; cbn [row_after] in *; try done;
      repeat match goal with
      | |- context [with_setting ?k0 ?v ?w0] =>
          lazymatch goal with
          | |- WalletSettingsSchema.props
                 (WalletSchema.settings (with_setting k0 _ _)) k
               = WalletSettingsSchema.props
                   (WalletSchema.settings (with_setting k0 _ _)) k =>
              let Hne := fresh "Hne" in
              destruct (decide (k0 = k)) as [<-|Hne];
              [ simpl; congruence
              | rewrite !(props_with_setting_ne k0 _ _ k Hne) ]
          end
      end; done.
  - unfold agree_on in *.
    destruct op; cbn [row_after] in *;
      rewrite ?notifications_with_setting; try done.
    simpl. destruct (decide (Wallet.payload_type payload = t)) as [<-|Hne].
    + by rewrite !lookup_insert_eq.
    + by rewrite !lookup_insert_ne.
Qed.

(** X15.  Two setters of [Wallet] without a designated field in common
    commute: called in either order, where the Wallet object of the current
    version is stored and no write scope is open, both calls return and the
    object they leave is the same in every field, down to single settings
    and notification toggles; accounts and nodes are as before. *)
Theorem setters_on_other_fields_commute
    (op1 op2 : Setter) (r : Realm) (w : WalletSchema.object) :
  idle r ->
  Wallet.latestData r = (Ok (Some w), r) ->
  (forall f, f ∈ designated op1 -> f ∉ designated op2) ->
  exists ra rb wa wb,
    (call op1 ;; call op2) r = (Ok tt, ra) /\
    (call op2 ;; call op1) r = (Ok tt, rb) /\
    Wallet.latestData ra = (Ok (Some wa), ra) /\
    Wallet.latestData rb = (Ok (Some wb), rb) /\
    (forall f, agree_on f wa wb) /\
    accounts (objects ra) = accounts (objects rb) /\
    nodes (objects ra) = nodes (objects rb).
Proof.
  intros Hidle Hfound Hdisjoint. apply latestData_found in Hfound.
  destruct (call_found_next op1 r w Hidle Hfound) as (H1 & Hi1 & Hl1 & Ha1 & Hn1).
  destruct (call_found_next op2 r w Hidle Hfound) as (H2 & Hi2 & Hl2 & Ha2 & Hn2).
  destruct (call_found_next op2 _ _ Hi1 Hl1) as (H12 & _ & Hl12 & Ha12 & Hn12).
  destruct (call_found_next op1 _ _ Hi2 Hl2) as (H21 & _ & Hl21 & Ha21 & Hn21).
  do 2 eexists.
  exists (row_after op2 (row_after op1 w)), (row_after op1 (row_after op2 w)).
  split; [by rewrite (bind_ok _ _ _ _ _ H1)|].
  split; [by rewrite (bind_ok _ _ _ _ _ H2)|].
  split; [by rewrite latestData_lookup, Hl12|].
  split; [by rewrite latestData_lookup, Hl21|].
  split; [|split; congruence].
  intros f. destruct (agree_or_differs f w (row_after op1 w)) as [Hsame1|Hd1].
  - (* op1 left f alone from w *)
    apply agree_on_trans with (row_after op2 w).
    { apply row_after_local. by apply agree_on_sym. }
    destruct (agree_or_differs f (row_after op2 w)
                (row_after op1 (row_after op2 w))) as [?|Hd]; [done|].
    (* op1 assigns f after all, so op2 leaves it alone, and what op1 leaves
       in f depends on f only *)
    apply row_after_frame in Hd. pose proof (Hdisjoint f Hd) as Hout2.
    apply agree_on_trans with w; [apply agree_on_sym; by apply agree_frame|].
    apply agree_on_trans with (row_after op1 w); [done|].
    apply row_after_local. by apply agree_frame.
  - (* op1 assigns f, so op2 leaves it alone *)
    apply row_after_frame in Hd1. pose proof (Hdisjoint f Hd1) as Hout2.
    apply agree_on_trans with (row_after op1 w).
    + apply agree_on_sym. by apply agree_frame.
    + apply row_after_local. by apply agree_frame.
Qed.

End WithSchemas.

(** ** Node batches again *)

Section WithSchemas.
Context `{Schemas}.

Lemma addNodes_runs r (batch : list NodeSchema.data) :
  idle r ->
  NoDup (new_urls (nodes (objects r)) batch) ->
  Node.addNodes (Some batch) r
  = (Ok tt,
     committed
       (with_objects
          (set_nodes (foldl spec_upsert (nodes (objects r)) batch) (objects r))
          (begun r))).
Proof.
  intros Hidle Hnd. destruct batch as [|d batch].
  { simpl. unfold ret. by rewrite set_nodes_same, committed_begun. }
  rewrite addNodes_nonempty. eapply write_commits; [done | |].
  - apply keeps_each. intros a. apply keeps_addNodes_iteratee.
  - eapply (each_addNodes_iteratee _ _ (begun r)); simpl; eauto.
Qed.

Lemma spec_upsert_lookup_ne t d u :
  u <> NodeSchema.data_url d ->
  lookup_pk NodeSchema.url u (spec_upsert t d) = lookup_pk NodeSchema.url u t.
Proof.
  intros Hne. unfold spec_upsert. case_bool_decide.
  - by apply lookup_modify_pk_ne.
  - by apply lookup_pk_app_ne.
Qed.

Lemma foldl_upsert_lookup_out (batch : list NodeSchema.data) :
  forall t u,
    u ∉ NodeSchema.data_url <$> batch ->
    lookup_pk NodeSchema.url u (foldl spec_upsert t batch)
    = lookup_pk NodeSchema.url u t.
Proof.
  induction batch as [|d batch IH]; intros t u Hout; [done|].
  rewrite fmap_cons, not_elem_of_cons in Hout. destruct Hout as [Hne Hout].
  cbn [foldl]. rewrite IH by done. by apply spec_upsert_lookup_ne.
Qed.

Lemma node_assign_props_twice d o :
  NodeSchema.assign_props d (NodeSchema.assign_props d o) = NodeSchema.assign_props d o.
Proof.
  unfold NodeSchema.assign_props. simpl.
  by destruct (NodeSchema.data_custom d), (NodeSchema.data_pow d).
Qed.

Lemma node_assign_props_instantiate d :
  NodeSchema.assign_props d (NodeSchema.instantiate d) = NodeSchema.instantiate d.
Proof.
  unfold NodeSchema.assign_props, NodeSchema.instantiate. simpl.
  by destruct (NodeSchema.data_custom d), (NodeSchema.data_pow d).
Qed.

(** After its upsert a node's object takes nothing more from it. *)
Lemma spec_upsert_settled t d :
  exists o,
    lookup_pk NodeSchema.url (NodeSchema.data_url d) (spec_upsert t d) = Some o /\
    NodeSchema.assign_props d o = o.
Proof.
  unfold spec_upsert. case_bool_decide as Hin.
  - apply lookup_pk_is_Some in Hin as [o Ho].
    exists (NodeSchema.assign_props d o). split.
    + rewrite lookup_modify_pk by done. by rewrite Ho.
    + apply node_assign_props_twice.
  - exists (NodeSchema.instantiate d). split.
    + by apply (lookup_pk_new NodeSchema.url _ (NodeSchema.instantiate d)).
    + apply node_assign_props_instantiate.
Qed.

Lemma foldl_upsert_rows (batch : list NodeSchema.data) :
  NoDup (NodeSchema.data_url <$> batch) ->
  forall t d, d ∈ batch ->
    exists o,
      lookup_pk NodeSchema.url (NodeSchema.data_url d) (foldl spec_upsert t batch)
      = Some o /\
      NodeSchema.assign_props d o = o.
Proof.
  induction batch as [|d0 batch IH]; intros Hnd t d Hin.
  { by apply elem_of_nil in Hin. }
  rewrite fmap_cons in Hnd. apply NoDup_cons in Hnd as [Hfirst Hnd].
  cbn [foldl]. apply elem_of_cons in Hin as [->|Hin]; [|by apply IH].
  rewrite foldl_upsert_lookup_out by done. apply spec_upsert_settled.
Qed.

Lemma foldl_upsert_settled (batch : list NodeSchema.data) t :
  (forall d, d ∈ batch ->
     exists o, lookup_pk NodeSchema.url (NodeSchema.data_url d) t = Some o /\
               NodeSchema.assign_props d o = o) ->
  foldl spec_upsert t batch = t.
Proof.
  induction batch as [|d batch IH]; intros Hrows; [done|].
  cbn [foldl].
  destruct (Hrows d ltac:(left)) as (o & Ho & Hfix).
  assert (Hstep : spec_upsert t d = t).
  { unfold spec_upsert. rewrite bool_decide_eq_true_2.
    - by eapply modify_pk_fixed.
    - apply lookup_pk_is_Some. by exists o. }
  rewrite Hstep. apply IH. intros d' Hd'. apply Hrows. by right.
Qed.

(** X16.  [addNodes] is idempotent on a list of nodes with pairwise
    different URLs: with no write scope open, the same call made again
    returns and leaves the Realm as the first call left it. *)
Theorem addNodes_idempotent (r : Realm) (batch : list NodeSchema.data) :
  idle r ->
  NoDup (NodeSchema.data_url <$> batch) ->
  exists r1,
    Node.addNodes (Some batch) r = (Ok tt, r1) /\
    Node.addNodes (Some batch) r1 = (Ok tt, r1).
Proof.
  intros Hidle Hnd.
  assert (Hnew : forall t, NoDup (new_urls t batch))
    by (intros t; by apply NoDup_filter).
  eexists. split; [by apply addNodes_runs|].
  set (r1 := committed _).
  rewrite (addNodes_runs r1 batch eq_refl (Hnew _)). f_equal.
  subst r1. simpl. rewrite foldl_upsert_settled; [done|].
  intros d Hd. by apply foldl_upsert_rows.
Qed.

(** X17.  [addNodes] touches the nodes it is given and no others: after a
    call that returns, every URL that is not in the list finds the node it
    found before, or none as before, and accounts and Wallet objects are as
    they were. *)
Theorem addNodes_leaves_other_nodes (r : Realm) (batch : list NodeSchema.data) :
  idle r ->
  NoDup (new_urls (nodes (objects r)) batch) ->
  exists r',
    Node.addNodes (Some batch) r = (Ok tt, r') /\
    (forall u, u ∉ NodeSchema.data_url <$> batch ->
       fst (Node.getObjectForId u r') = fst (Node.getObjectForId u r)) /\
    (forall d, d ∈ batch ->
       exists n, Node.getObjectForId (NodeSchema.data_url d) r' = (Ok (Some n), r')) /\
    accounts (objects r') = accounts (objects r) /\
    wallets (objects r') = wallets (objects r).
Proof.
  intros Hidle Hnd. eexists. split; [by apply addNodes_runs|].
  split; [|split; [|done]].
  - intros u Hout. rewrite !getObjectForId_Node. simpl. f_equal.
    by apply foldl_upsert_lookup_out.
  - intros d Hd. rewrite getObjectForId_Node. simpl.
    assert (Hin : NodeSchema.data_url d
                  ∈ NodeSchema.url <$> foldl spec_upsert (nodes (objects r)) batch).
    { rewrite spec_upsert_urls by done.
      destruct (decide (NodeSchema.data_url d ∈ NodeSchema.url <$> nodes (objects r)))
        as [?|Hout]; apply elem_of_app; [by left | right].
      apply list_elem_of_filter. split; [done|]. by apply list_elem_of_fmap_2. }
    apply lookup_pk_is_Some in Hin as [n Hn]. exists n. by rewrite Hn.
Qed.

End WithSchemas.

(** ** Listings, and the seed vault backup screen *)

Section WithSchemas.
Context `{Schemas}.

(** X18.  The listings and the lookups agree.  Neither listing throws or
    changes the Realm; with unique primary keys, a node is in
    [Node.getDataAsArray] exactly when [getObjectForId] finds it under its
    URL, and the plain objects of [Account.getDataAsArray] are, one for one
    and in order, the name and the two lists of the accounts that
    [getObjectForId] finds under their names. *)
Theorem listings_agree_with_lookup (r : Realm) :
  unique_keys (objects r) ->
  (exists l,
      Node.getDataAsArray r = (Ok l, r) /\
      forall n, n ∈ l <-> Node.getObjectForId (NodeSchema.url n) r = (Ok (Some n), r)) /\
  (exists l,
      Account.getDataAsArray r = (Ok l, r) /\
      length l = length (accounts (objects r)) /\
      AccountSchema.data_name <$> l
      = (fun a => Some (AccountSchema.name a)) <$> accounts (objects r) /\
      forall d,
        d ∈ l <->
        exists a,
          Account.getObjectForId (AccountSchema.name a) r = (Ok (Some a), r) /\
          d = {| AccountSchema.data_name := Some (AccountSchema.name a);
                 AccountSchema.data_addressData := Some (AccountSchema.addressData a);
                 AccountSchema.data_transactions := Some (AccountSchema.transactions a);
                 AccountSchema.data_accountName := None |}).
Proof.
  intros (Ha & Hn & _). split.
  - exists (nodes (objects r)). split; [done|]. intros n.
    rewrite getObjectForId_Node. split.
    + intros Hin. do 2 f_equal. by apply lookup_pk_elem.
    + intros [= Hl]. by apply (lookup_pk_elem NodeSchema.url) in Hl as [? _].
  - eexists. split; [reflexivity|]. split; [by rewrite length_fmap|]. split.
    { rewrite <- list_fmap_compose. by apply list_fmap_ext. }
    intros d. rewrite list_elem_of_fmap. split.
    + intros (a & -> & Hin). exists a. split; [|done].
      rewrite getObjectForId_Account. do 2 f_equal. by apply lookup_pk_elem.
    + intros (a & Hfound & ->). exists a. split; [done|].
      rewrite getObjectForId_Account in Hfound. injection Hfound as Hl.
      by apply (lookup_pk_elem AccountSchema.name) in Hl as [? _].
Qed.

End WithSchemas.

(** X19.  On the seed vault backup screen the right button does what its
    text says, at every step and on either platform: it is labelled with the
    export text exactly when a press exports, which is at the exporting step
    off Android only; with the done text exactly when a press goes back,
    which is at the step of choosing how to save on Android; and with the
    next text otherwise, as at the step the screen starts in. *)
Theorem right_button_text_names_its_action (isAndroid : bool) (step : string) :
  SeedVaultBackup.rightButtonText isAndroid step
  = SeedVaultBackup.text_of (SeedVaultBackup.onRightButtonPress isAndroid step) /\
  (SeedVaultBackup.onRightButtonPress isAndroid step = SeedVaultBackup.onExportPress
   <-> step = "isExporting" /\ isAndroid = false) /\
  (SeedVaultBackup.onRightButtonPress isAndroid step = SeedVaultBackup.goBack
   <-> step = "isSelectingSaveMethodAndroid") /\
  (SeedVaultBackup.onRightButtonPress isAndroid step = SeedVaultBackup.onNextPress
   <-> step <> "isSelectingSaveMethodAndroid" /\
       (step = "isExporting" -> isAndroid = true)) /\
  SeedVaultBackup.onRightButtonPress isAndroid SeedVaultBackup.initialStep
  = SeedVaultBackup.onNextPress.
Proof.
  unfold SeedVaultBackup.rightButtonText, SeedVaultBackup.onRightButtonPress.
  split; [|split; [|split; [|split]]]; [| | | |done].
  all: destruct (String.eqb_spec step "isExporting") as [Hexp|Hexp];
    destruct (String.eqb_spec step "isSelectingSaveMethodAndroid") as [Hsel|Hsel];
    destruct isAndroid; simpl; try done;
    try (exfalso; rewrite Hexp in Hsel; discriminate Hsel).
  all: split; intros; try done; try tauto;
    repeat match goal with Hc : _ /\ _ |- _ => destruct Hc end;
    try congruence; try (split; [done|]; intros; congruence); auto.
  match goal with
  | Hc : step = "isExporting" -> false = true |- _ => by specialize (Hc Hexp)
  end.
Qed.

(** ** The further properties on the sample data *)

Section OnSampleData.
#[local] Existing Instance Sample.schemas.

Lemma sample_unique_keys : unique_keys (objects Sample.populated).
Proof. repeat split; apply NoDup_singleton. Defined.

Lemma Account_delete_removes_witness :
  let r := Sample.populated in
  idle r /\
  NoDup (AccountSchema.name <$> accounts (objects r)) /\
  Account.getObjectForId "alice" r = (Ok (Some Sample.alice), r) /\
  (exists r',
      Account.delete "alice" r = (Ok tt, r') /\
      Account.getObjectForId "alice" r' = (Ok None, r') /\
      nodes (objects r') = [Sample.node_a]) /\
  Account.delete "bob" r = (Throw InvalidDeleteArgument, r).
Proof.
  intros r.
  assert (Huniq : NoDup (AccountSchema.name <$> accounts (objects r)))
    by apply NoDup_singleton.
  destruct (Account_delete_removes r "alice" eq_refl Huniq) as [Hfound _].
  destruct (Account_delete_removes r "bob" eq_refl Huniq) as [_ Habsent].
  destruct (Hfound Sample.alice eq_refl)
    as (r' & Hrun & _ & Hgone & _ & _ & Hnodes & _).
  split; [reflexivity|]. split; [exact Huniq|]. split; [reflexivity|].
  split; [|exact (Habsent eq_refl)].
  exists r'. split; [exact Hrun|]. split; [exact Hgone | exact Hnodes].
Defined.

Lemma Node_delete_removes_witness :
  let r := Sample.populated in
  idle r /\
  NoDup (NodeSchema.url <$> nodes (objects r)) /\
  Node.getObjectForId "a" r = (Ok (Some Sample.node_a), r) /\
  (exists r',
      Node.delete "a" r = (Ok tt, r') /\
      Node.getObjectForId "a" r' = (Ok None, r') /\
      NodeSchema.url <$> nodes (objects r') = []) /\
  Node.delete "b" r = (Throw InvalidDeleteArgument, r).
Proof.
  intros r.
  assert (Huniq : NoDup (NodeSchema.url <$> nodes (objects r)))
    by apply NoDup_singleton.
  destruct (Node_delete_removes r "a" eq_refl Huniq) as [Hfound _].
  destruct (Node_delete_removes r "b" eq_refl Huniq) as [_ Habsent].
  destruct (Hfound Sample.node_a eq_refl)
    as (r' & Hrun & _ & Hgone & _ & Hurls & _).
  split; [reflexivity|]. split; [exact Huniq|]. split; [reflexivity|].
  split; [|exact (Habsent eq_refl)].
  exists r'. split; [exact Hrun|]. split; [exact Hgone|].
  rewrite Hurls. reflexivity.
Defined.

Lemma Account_create_refuses_witness :
  let r := Sample.populated in
  let again := {| AccountSchema.data_name := Some "alice";
                  AccountSchema.data_addressData := Some [];
                  AccountSchema.data_transactions := Some [];
                  AccountSchema.data_accountName := None |} in
  idle r /\
  Account.getObjectForId "alice" r = (Ok (Some Sample.alice), r) /\
  Account.create again r = (Throw (DuplicatePrimaryKey "Account"), r) /\
  Account.create AccountSchema.empty r
  = (Throw (MissingPropertyValue "Account.name"), r).
Proof.
  intros r again. split; [reflexivity|]. split; [reflexivity|]. split.
  - exact (proj1 (Account_create_refuses r again eq_refl)
             "alice" Sample.alice eq_refl eq_refl).
  - exact (proj2 (Account_create_refuses r AccountSchema.empty eq_refl) eq_refl).
Defined.

Lemma Account_update_upserts_witness :
  let r := Sample.populated in
  let d := {| AccountSchema.data_name := None;
              AccountSchema.data_addressData := Some ["ADDRESS9Z"];
              AccountSchema.data_transactions := None;
              AccountSchema.data_accountName := None |} in
  idle r /\
  (exists r' a',
      Account.update "alice" d r = (Ok tt, r') /\
      Account.getObjectForId "alice" r' = (Ok (Some a'), r') /\
      AccountSchema.addressData a' = ["ADDRESS9Z"] /\
      AccountSchema.transactions a' = ["TX9HASH"] /\
      AccountSchema.name <$> accounts (objects r') = ["alice"]).
Proof.
  intros r d. split; [reflexivity|].
  destruct (Account_update_upserts r "alice" d eq_refl)
    as (r' & a' & Hrun & _ & Hget & _ & Haddr & _ & Hold & _).
  destruct (Hold Sample.alice eq_refl) as (_ & Htx & Hnames).
  exists r', a'. split; [exact Hrun|]. split; [exact Hget|].
  split; [exact (Haddr _ eq_refl)|]. split.
  - rewrite (Htx eq_refl). reflexivity.
  - rewrite Hnames. reflexivity.
Defined.

Lemma Account_update_name_in_data_wins_witness :
  let r := Sample.populated in
  let d := {| AccountSchema.data_name := Some "bob";
              AccountSchema.data_addressData := Some [];
              AccountSchema.data_transactions := None;
              AccountSchema.data_accountName := None |} in
  AccountSchema.data_name d = Some "bob" /\
  Account.update "alice" d r = Account.update "bob" d r /\
  fst (Account.getObjectForId "alice" (snd (Account.update "alice" d r)))
  = Ok (Some Sample.alice).
Proof.
  intros r d. split; [reflexivity|].
  destruct (Account_update_name_in_data_wins r "alice" "bob" d eq_refl)
    as [Hsame Hkept].
  split; [exact Hsame|].
  rewrite (Hkept ltac:(discriminate) (fst (Account.update "alice" d r))
             (snd (Account.update "alice" d r)));
    [reflexivity|].
  by destruct (Account.update "alice" d r).
Defined.

Lemma Account_update_idempotent_witness :
  let r := Sample.populated in
  let d := {| AccountSchema.data_name := None;
              AccountSchema.data_addressData := None;
              AccountSchema.data_transactions := Some ["TX9NEW"];
              AccountSchema.data_accountName := None |} in
  idle r /\
  (exists r1,
      Account.update "carol" d r = (Ok tt, r1) /\
      Account.update "carol" d r1 = (Ok tt, r1)).
Proof.
  intros r d. split; [reflexivity|].
  exact (Account_update_idempotent r "carol" d eq_refl).
Defined.


Lemma addCustomNode_delete_round_trip_witness :
  let r := Sample.populated in
  idle r /\
  Node.getObjectForId "b" r = (Ok None, r) /\
  (exists r1,
      Node.addCustomNode "b" true r = (Ok tt, r1) /\ Node.delete "b" r1 = (Ok tt, r)).
Proof.
  intros r. do 2 (split; [reflexivity|]).
  exact (addCustomNode_delete_round_trip r "b" true eq_refl eq_refl).
Defined.

Lemma calls_keep_keys_unique_witness :
  let r := Sample.populated in
  let ops :=
    [ AccountMigrate "alice" "bob";
      NodeAddNodes (Some [Sample.plain_node "c" None; Sample.plain_node "c" None]);
      NodeAddCustomNode "a" true;
      AccountUpdate "bob" AccountSchema.empty;
      WalletSet (UpdateLocale "de");
      NodeDelete "a";
      Reinitialise;
      WalletSet ClearErrorLog ] in
  idle r /\
  unique_keys (objects r) /\
  idle (run_all ops r) /\
  unique_keys (objects (run_all ops r)).
Proof.
  intros r ops. split; [reflexivity|]. split; [exact sample_unique_keys|].
  exact (calls_keep_keys_unique ops r eq_refl sample_unique_keys).
Defined.

Lemma failed_call_changes_nothing_witness :
  let r := Sample.populated in
  let op := NodeAddNodes (Some [Sample.plain_node "c" None; Sample.plain_node "c" None]) in
  run op r = (Throw (DuplicatePrimaryKey "Node"), snd (run op r)) /\
  snd (run op r) = r.
Proof.
  intros r op.
  assert (Hrun : run op r = (Throw (DuplicatePrimaryKey "Node"), snd (run op r)))
    by (vm_compute; reflexivity).
  split; [exact Hrun|].
  exact (failed_call_changes_nothing op r _ _ Hrun).
Defined.

Lemma initialise_enables_setters_witness :
  let r := Sample.walletless in
  idle r /\
  (exists r1 r2,
      initialise r = (Resolved, r1) /\
      Wallet.latestData r1 = (Ok (Some Sample.wallet), r1) /\
      call (UpdateLocale "de") r1 = (Ok tt, r2)).
Proof.
  intros r. split; [reflexivity|].
  destruct (initialise_enables_setters r (UpdateLocale "de") eq_refl)
    as (r1 & w & s & r2 & Hinit & _ & Hlatest & _ & _ & _ & Hcall).
  exists r1, r2. split; [exact Hinit|]. split; [|exact Hcall].
  assert (Hr1 : r1 = snd (initialise r)) by (by rewrite Hinit).
  rewrite Hlatest. rewrite Hr1 in Hlatest. vm_compute in Hlatest.
  by injection Hlatest as <-.
Defined.

Lemma purge_disables_setters_witness :
  let r := Sample.populated in
  idle r /\
  (exists r0,
      purge r = (Resolved, r0) /\
      Node.getDataAsArray r0 = (Ok [], r0) /\
      Wallet.latestData r0 = (Ok None, r0) /\
      (exists prop, call (UpdateTheme "Dark") r0 = (Throw (TypeError prop), r0))).
Proof.
  intros r. split; [reflexivity|].
  destruct (purge_disables_setters r (UpdateTheme "Dark") eq_refl)
    as (r0 & Hpurge & _ & _ & Hnodes & _ & Hlatest & _ & Hcall & _).
  exists r0. split; [exact Hpurge|]. split; [exact Hnodes|].
  split; [exact Hlatest | exact Hcall].
Defined.

Lemma toggle_twice_restores_witness :
  let r := Sample.populated in
  idle r /\
  Wallet.latestData r = (Ok (Some Sample.wallet), r) /\
  (exists r1 r2 w2,
      Wallet.toggleEmptyTransactionsDisplay r = (Ok tt, r1) /\
      Wallet.toggleEmptyTransactionsDisplay r1 = (Ok tt, r2) /\
      Wallet.latestData r2 = (Ok (Some w2), r2) /\
      WalletSettingsSchema.props (WalletSchema.settings w2)
        WalletSettingsSchema.hideEmptyTransactions = false /\
      WalletSettingsSchema.props (WalletSchema.settings w2)
        WalletSettingsSchema.locale = "en").
Proof.
  intros r. do 2 (split; [reflexivity|]).
  destruct (toggle_twice_restores r Sample.wallet eq_refl eq_refl)
    as (r1 & r2 & w1 & w2 & Hrun1 & _ & _ & Hrun2 & Hlatest & Hsame & _).
  exists r1, r2, w2. split; [exact Hrun1|]. split; [exact Hrun2|].
  split; [exact Hlatest|]. split.
  - exact (Hsame (FSetting WalletSettingsSchema.hideEmptyTransactions)).
  - exact (Hsame (FSetting WalletSettingsSchema.locale)).
Defined.

Lemma errorLog_appends_in_order_witness :
  let r := Sample.populated in
  idle r /\
  Wallet.latestData r = (Ok (Some Sample.wallet), r) /\
  (exists r1 w1 r2 w2,
      each ["first"; "second"] Wallet.updateErrorLog r = (Ok tt, r1) /\
      Wallet.latestData r1 = (Ok (Some w1), r1) /\
      WalletSchema.errorLog w1 = ["first"; "second"] /\
      Wallet.clearErrorLog r1 = (Ok tt, r2) /\
      Wallet.latestData r2 = (Ok (Some w2), r2) /\
      WalletSchema.errorLog w2 = []).
Proof.
  intros r. do 2 (split; [reflexivity|]).
  destruct (errorLog_appends_in_order ["first"; "second"] r Sample.wallet
              eq_refl eq_refl)
    as (r1 & w1 & r2 & w2 & Hrun & Hl1 & Hlog & _ & Hclear & Hl2 & Hempty & _).
  exists r1, w1, r2, w2. repeat split; assumption.
Defined.

Lemma setters_on_other_fields_commute_witness :
  let r := Sample.populated in
  let op1 := UpdateLocale "de" in
  let op2 := SetRandomlySelectedNode "https://other.example:443" in
  idle r /\
  Wallet.latestData r = (Ok (Some Sample.wallet), r) /\
  (forall f, f ∈ designated op1 -> f ∉ designated op2) /\
  (exists ra rb wa wb,
      (call op1 ;; call op2) r = (Ok tt, ra) /\
      (call op2 ;; call op1) r = (Ok tt, rb) /\
      Wallet.latestData ra = (Ok (Some wa), ra) /\
      Wallet.latestData rb = (Ok (Some wb), rb) /\
      WalletSettingsSchema.props (WalletSchema.settings wb) WalletSettingsSchema.locale
      = WalletSettingsSchema.props (WalletSchema.settings wa) WalletSettingsSchema.locale /\
      WalletSettingsSchema.props (WalletSchema.settings wb) WalletSettingsSchema.node
      = WalletSettingsSchema.props (WalletSchema.settings wa) WalletSettingsSchema.node).
Proof.
  intros r op1 op2. do 2 (split; [reflexivity|]).
  assert (Hdisjoint : forall f, f ∈ designated op1 -> f ∉ designated op2).
  { intros f Hin Hin2. apply list_elem_of_singleton in Hin. subst f.
    apply elem_of_cons in Hin2 as [Heq|Hin2]; [discriminate Heq|].
    apply list_elem_of_singleton in Hin2. discriminate Hin2. }
  split; [exact Hdisjoint|].
  destruct (setters_on_other_fields_commute op1 op2 r Sample.wallet
              eq_refl eq_refl Hdisjoint)
    as (ra & rb & wa & wb & Hab & Hba & Hla & Hlb & Hsame & _).
  exists ra, rb, wa, wb. do 4 (split; [assumption|]). split.
  - exact (Hsame (FSetting WalletSettingsSchema.locale)).
  - exact (Hsame (FSetting WalletSettingsSchema.node)).
Defined.

Lemma addNodes_idempotent_witness :
  let r := Sample.populated in
  let batch := [Sample.plain_node "a" (Some true); Sample.plain_node "c" None] in
  idle r /\
  NoDup (NodeSchema.data_url <$> batch) /\
  (exists r1,
      Node.addNodes (Some batch) r = (Ok tt, r1) /\
      Node.addNodes (Some batch) r1 = (Ok tt, r1)).
Proof.
  intros r batch. split; [reflexivity|].
  assert (Hnd : NoDup (NodeSchema.data_url <$> batch)).
  { apply NoDup_cons. split; [|apply NoDup_singleton].
    intros Hin. apply list_elem_of_singleton in Hin. discriminate Hin. }
  split; [exact Hnd|].
  exact (addNodes_idempotent r batch eq_refl Hnd).
Defined.

Lemma addNodes_leaves_other_nodes_witness :
  let r := Sample.populated in
  let batch := [Sample.plain_node "c" (Some true)] in
  idle r /\
  NoDup (new_urls (nodes (objects r)) batch) /\
  (exists r',
      Node.addNodes (Some batch) r = (Ok tt, r') /\
      fst (Node.getObjectForId "a" r') = Ok (Some Sample.node_a) /\
      accounts (objects r') = [Sample.alice]).
Proof.
  intros r batch. split; [reflexivity|].
  assert (Hnd : NoDup (new_urls (nodes (objects r)) batch))
    by (vm_compute; apply NoDup_singleton).
  split; [exact Hnd|].
  destruct (addNodes_leaves_other_nodes r batch eq_refl Hnd)
    as (r' & Hrun & Hframe & _ & Hacc & _).
  exists r'. split; [exact Hrun|]. split; [|exact Hacc].
  rewrite Hframe; [reflexivity|].
  intros Hin. apply list_elem_of_singleton in Hin. discriminate Hin.
Defined.

Lemma listings_agree_with_lookup_witness :
  let r := Sample.populated in
  unique_keys (objects r) /\
  Node.getDataAsArray r = (Ok [Sample.node_a], r) /\
  Node.getObjectForId "a" r = (Ok (Some Sample.node_a), r) /\
  (exists l, Account.getDataAsArray r = (Ok l, r) /\ length l = 1%nat).
Proof.
  intros r. split; [exact sample_unique_keys|].
  destruct (listings_agree_with_lookup r sample_unique_keys)
    as [(ln & Hln & Hnodes) (la & Hla & Hlen & _)].
  split; [reflexivity|]. split.
  - apply (Hnodes Sample.node_a). injection Hln as <-. left.
  - exists la. split; [exact Hla | exact Hlen].
Defined.

End OnSampleData.
